(** * Knife Hit: the rules engine of the game screen

    A shallow embedding of the game component [KnifeHitGame]: its
    configuration tables, the angle arithmetic, the React state of the
    component as one record, and every callback of the component as a
    function on that record.

    Numbers.  The counters of the source (score, coins, knives, stage)
    only ever hold integers and are modelled in [Z].  Angles and speeds
    are fractional; they are modelled as exact rationals in [Q], so
    rounding of the host's number type is outside this development. *)

From Stdlib Require Import String ZArith QArith Qabs Qround Qminmax.
From Stdlib Require Import List Bool Lia Lqa.
Import ListNotations.

Open Scope Q_scope.

(** ** Numbers of the host language *)

(** Strict comparison as a boolean. *)
Definition Qltb (x y : Q) : bool := negb (Qle_bool y x).

(** Truncation toward zero, the rounding that the remainder operator
    [%] of the source uses. *)
Definition Qtrunc (x : Q) : Z :=
  if Qle_bool 0 x then Qfloor x else Qceiling x.

(** [x % m]: the remainder has the sign of the dividend. *)
Definition js_mod (x m : Q) : Q := x - inject_Z (Qtrunc (x / m)) * m.

(** ** Game configuration *)

Definition BASE_KNIVES : Z := 10.
Definition BASE_APPLES : Z := 10.
Definition ROTATION_SPEED : Q := 3 # 2.
Definition COLLISION_GAP : Q := 18.
Definition APPLE_GAP : Q := 15.

Record BossData := mkBoss {
  boss_stage : Z;
  boss_name : string;
  boss_color : string;
  boss_bgColor : string;
  boss_knives : Z;
  boss_apples : Z;
  boss_speed : Q;
  boss_reward : Z
}.

Definition BOSSES : list BossData :=
  [ mkBoss 5 "🧀 CHEESE BOSS" "#FFD700" "#FFA000" 12 8 2 200;
    mkBoss 10 "🍉 WATERMELON" "#4CAF50" "#2E7D32" 14 6 (22 # 10) 300;
    mkBoss 15 "🎂 CAKE BOSS" "#E91E63" "#C2185B" 15 5 (25 # 10) 400;
    mkBoss 20 "🍊 ORANGE BOSS" "#FF9800" "#F57C00" 16 4 (28 # 10) 500;
    mkBoss 25 "💎 DIAMOND" "#00BCD4" "#0097A7" 18 3 3 1000 ].

Definition DAILY_REWARDS : list Z := [50; 100; 150; 200; 300; 500; 1000]%Z.

Inductive GameState := ready | playing | failed | win | boss_intro.

Definition GameState_eqb (a b : GameState) : bool :=
  match a, b with
  | ready, ready | playing, playing | failed, failed
  | win, win | boss_intro, boss_intro => true
  | _, _ => false
  end.

Record AppleData := mkApple {
  apple_id : Z;
  apple_angle : Q;
  apple_visible : bool
}.

(** ** Angle arithmetic *)

(** The distance computed inline by [throwKnife], for knives and for
    apples alike: [diff = |a - h|; if (diff > 180) diff = 360 - diff]. *)
Definition angleDiff (a h : Q) : Q :=
  let diff := Qabs (a - h) in
  if Qltb 180 diff then 360 - diff else diff.

(** The angular distance in the words of the data model:
    [min(|a-b|, 360-|a-b|)]. *)
Definition angularDistance (a b : Q) : Q :=
  Qmin (Qabs (a - b)) (360 - Qabs (a - b)).

(** The angle under the throw point when the board has turned by [rot]. *)
Definition hitAngleOf (rot : Q) : Q := js_mod (180 - rot + 360) 360.

(** ** Apples *)

(** [generateApples] with its random offset made explicit. *)
Definition generateApplesAt (offset : Q) (count : Z) : list AppleData :=
  map (fun i : Z =>
         mkApple i (js_mod (offset + inject_Z i * (360 / inject_Z count)) 360) true)
      (map Z.of_nat (seq 0 (Z.to_nat count))).

(** [generateApples]: [rnd] is the value of [Math.random()], in [[0,1)]. *)
Definition generateApples (rnd : Q) (count : Z) : list AppleData :=
  generateApplesAt (rnd * (360 / inject_Z count)) count.

(** [getBossForStage]: the first entry of the table for that stage. *)
Definition getBossForStage (stageNum : Z) : option BossData :=
  find (fun b => Z.eqb (boss_stage b) stageNum) BOSSES.

(** ** Deferred callbacks

    A throw is resolved by the completion callback of a 100 ms
    animation, and a win is applied by a 100 ms timer started by that
    callback.  Both close over the values of the render in which
    [throwKnife] ran; the closure is kept with the callback. *)

Inductive Callback :=
| Landing (hitAngle : Q) (cStuckKnives : list Q) (cApples : list AppleData)
          (cIsBossLevel : bool) (cCurrentBoss : option BossData)
| WinTimer (cIsBossLevel : bool) (cCurrentBoss : option BossData).

(** ** The state of the component

    One field per [useState] hook of the game; [rotation] also stands
    for [rotationRef.current], which the source always writes together
    with it.  [pending] holds the callbacks scheduled and not yet run,
    oldest first.  The coin pop-up and the fly animation only drive
    the display and are left out. *)

Record State := mkState {
  rotation : Q;
  stuckKnives : list Q;
  apples : list AppleData;
  explosions : list Q;
  knivesLeft : Z;
  gameState : GameState;
  stage : Z;
  score : Z;
  applesHit : Z;
  isThrowing : bool;
  hasUsedContinue : bool;
  currentBoss : option BossData;
  isBossLevel : bool;
  coins : Z;
  highScore : Z;
  showDailyReward : bool;
  rewardDay : Z;
  dailyRewardAmount : Z;
  pending : list Callback
}.

(** The setters of the hooks. *)

Definition setRotation (v : Q) (s : State) : State :=
  mkState v (stuckKnives s) (apples s) (explosions s) (knivesLeft s) (gameState s) (stage s) (score s) (applesHit s) (isThrowing s) (hasUsedContinue s) (currentBoss s) (isBossLevel s) (coins s) (highScore s) (showDailyReward s) (rewardDay s) (dailyRewardAmount s) (pending s).

Definition setStuckKnives (v : list Q) (s : State) : State :=
  mkState (rotation s) v (apples s) (explosions s) (knivesLeft s) (gameState s) (stage s) (score s) (applesHit s) (isThrowing s) (hasUsedContinue s) (currentBoss s) (isBossLevel s) (coins s) (highScore s) (showDailyReward s) (rewardDay s) (dailyRewardAmount s) (pending s).

Definition setApples (v : list AppleData) (s : State) : State :=
  mkState (rotation s) (stuckKnives s) v (explosions s) (knivesLeft s) (gameState s) (stage s) (score s) (applesHit s) (isThrowing s) (hasUsedContinue s) (currentBoss s) (isBossLevel s) (coins s) (highScore s) (showDailyReward s) (rewardDay s) (dailyRewardAmount s) (pending s).

Definition setExplosions (v : list Q) (s : State) : State :=
  mkState (rotation s) (stuckKnives s) (apples s) v (knivesLeft s) (gameState s) (stage s) (score s) (applesHit s) (isThrowing s) (hasUsedContinue s) (currentBoss s) (isBossLevel s) (coins s) (highScore s) (showDailyReward s) (rewardDay s) (dailyRewardAmount s) (pending s).

Definition setKnivesLeft (v : Z) (s : State) : State :=
  mkState (rotation s) (stuckKnives s) (apples s) (explosions s) v (gameState s) (stage s) (score s) (applesHit s) (isThrowing s) (hasUsedContinue s) (currentBoss s) (isBossLevel s) (coins s) (highScore s) (showDailyReward s) (rewardDay s) (dailyRewardAmount s) (pending s).

Definition setGameState (v : GameState) (s : State) : State :=
  mkState (rotation s) (stuckKnives s) (apples s) (explosions s) (knivesLeft s) v (stage s) (score s) (applesHit s) (isThrowing s) (hasUsedContinue s) (currentBoss s) (isBossLevel s) (coins s) (highScore s) (showDailyReward s) (rewardDay s) (dailyRewardAmount s) (pending s).

Definition setStage (v : Z) (s : State) : State :=
  mkState (rotation s) (stuckKnives s) (apples s) (explosions s) (knivesLeft s) (gameState s) v (score s) (applesHit s) (isThrowing s) (hasUsedContinue s) (currentBoss s) (isBossLevel s) (coins s) (highScore s) (showDailyReward s) (rewardDay s) (dailyRewardAmount s) (pending s).

Definition setScore (v : Z) (s : State) : State :=
  mkState (rotation s) (stuckKnives s) (apples s) (explosions s) (knivesLeft s) (gameState s) (stage s) v (applesHit s) (isThrowing s) (hasUsedContinue s) (currentBoss s) (isBossLevel s) (coins s) (highScore s) (showDailyReward s) (rewardDay s) (dailyRewardAmount s) (pending s).

Definition setApplesHit (v : Z) (s : State) : State :=
  mkState (rotation s) (stuckKnives s) (apples s) (explosions s) (knivesLeft s) (gameState s) (stage s) (score s) v (isThrowing s) (hasUsedContinue s) (currentBoss s) (isBossLevel s) (coins s) (highScore s) (showDailyReward s) (rewardDay s) (dailyRewardAmount s) (pending s).

Definition setIsThrowing (v : bool) (s : State) : State :=
  mkState (rotation s) (stuckKnives s) (apples s) (explosions s) (knivesLeft s) (gameState s) (stage s) (score s) (applesHit s) v (hasUsedContinue s) (currentBoss s) (isBossLevel s) (coins s) (highScore s) (showDailyReward s) (rewardDay s) (dailyRewardAmount s) (pending s).

Definition setHasUsedContinue (v : bool) (s : State) : State :=
  mkState (rotation s) (stuckKnives s) (apples s) (explosions s) (knivesLeft s) (gameState s) (stage s) (score s) (applesHit s) (isThrowing s) v (currentBoss s) (isBossLevel s) (coins s) (highScore s) (showDailyReward s) (rewardDay s) (dailyRewardAmount s) (pending s).

Definition setCurrentBoss (v : option BossData) (s : State) : State :=
  mkState (rotation s) (stuckKnives s) (apples s) (explosions s) (knivesLeft s) (gameState s) (stage s) (score s) (applesHit s) (isThrowing s) (hasUsedContinue s) v (isBossLevel s) (coins s) (highScore s) (showDailyReward s) (rewardDay s) (dailyRewardAmount s) (pending s).

Definition setIsBossLevel (v : bool) (s : State) : State :=
  mkState (rotation s) (stuckKnives s) (apples s) (explosions s) (knivesLeft s) (gameState s) (stage s) (score s) (applesHit s) (isThrowing s) (hasUsedContinue s) (currentBoss s) v (coins s) (highScore s) (showDailyReward s) (rewardDay s) (dailyRewardAmount s) (pending s).

Definition setCoins (v : Z) (s : State) : State :=
  mkState (rotation s) (stuckKnives s) (apples s) (explosions s) (knivesLeft s) (gameState s) (stage s) (score s) (applesHit s) (isThrowing s) (hasUsedContinue s) (currentBoss s) (isBossLevel s) v (highScore s) (showDailyReward s) (rewardDay s) (dailyRewardAmount s) (pending s).

Definition setHighScore (v : Z) (s : State) : State :=
  mkState (rotation s) (stuckKnives s) (apples s) (explosions s) (knivesLeft s) (gameState s) (stage s) (score s) (applesHit s) (isThrowing s) (hasUsedContinue s) (currentBoss s) (isBossLevel s) (coins s) v (showDailyReward s) (rewardDay s) (dailyRewardAmount s) (pending s).

Definition setShowDailyReward (v : bool) (s : State) : State :=
  mkState (rotation s) (stuckKnives s) (apples s) (explosions s) (knivesLeft s) (gameState s) (stage s) (score s) (applesHit s) (isThrowing s) (hasUsedContinue s) (currentBoss s) (isBossLevel s) (coins s) (highScore s) v (rewardDay s) (dailyRewardAmount s) (pending s).

Definition setRewardDay (v : Z) (s : State) : State :=
  mkState (rotation s) (stuckKnives s) (apples s) (explosions s) (knivesLeft s) (gameState s) (stage s) (score s) (applesHit s) (isThrowing s) (hasUsedContinue s) (currentBoss s) (isBossLevel s) (coins s) (highScore s) (showDailyReward s) v (dailyRewardAmount s) (pending s).

Definition setDailyRewardAmount (v : Z) (s : State) : State :=
  mkState (rotation s) (stuckKnives s) (apples s) (explosions s) (knivesLeft s) (gameState s) (stage s) (score s) (applesHit s) (isThrowing s) (hasUsedContinue s) (currentBoss s) (isBossLevel s) (coins s) (highScore s) (showDailyReward s) (rewardDay s) v (pending s).

Definition setPending (v : list Callback) (s : State) : State :=
  mkState (rotation s) (stuckKnives s) (apples s) (explosions s) (knivesLeft s) (gameState s) (stage s) (score s) (applesHit s) (isThrowing s) (hasUsedContinue s) (currentBoss s) (isBossLevel s) (coins s) (highScore s) (showDailyReward s) (rewardDay s) (dailyRewardAmount s) v.

(** The writes of a callback are chained in the order of the source. *)
Notation "s |> f" := (f s) (at level 45, left associativity, only parsing).

(** A hook updated through a function of its current value, as in
    [setScore((s) => s + 10)]. *)
Definition modScore (f : Z -> Z) (s : State) : State := setScore (f (score s)) s.
Definition modCoins (f : Z -> Z) (s : State) : State := setCoins (f (coins s)) s.
Definition modApplesHit (f : Z -> Z) (s : State) : State :=
  setApplesHit (f (applesHit s)) s.
Definition modKnivesLeft (f : Z -> Z) (s : State) : State :=
  setKnivesLeft (f (knivesLeft s)) s.
Definition modExplosions (f : list Q -> list Q) (s : State) : State :=
  setExplosions (f (explosions s)) s.

(** [isBossLevel && currentBoss ? currentBoss.field : dflt]. *)
Definition bossOr {A : Type} (bossLevel : bool) (boss : option BossData)
    (field : BossData -> A) (dflt : A) : A :=
  match boss with
  | Some b => if bossLevel then field b else dflt
  | None => dflt
  end.

(** ** Starting a stage *)

(** [initGame(stageNum)]; [rnd] is the random number drawn by
    [generateApples] when the stage is a normal one. *)
Definition initGame (rnd : Q) (stageNum : Z) (s : State) : State :=
  match getBossForStage stageNum with
  | Some boss =>
      s |> setCurrentBoss (Some boss) |> setIsBossLevel true
        |> setGameState boss_intro
  | None =>
      s |> setCurrentBoss None |> setIsBossLevel false
        |> setApples (generateApples rnd BASE_APPLES)
        |> setStuckKnives [] |> setExplosions []
        |> setKnivesLeft BASE_KNIVES |> setApplesHit 0%Z
        |> setHasUsedContinue false |> setRotation 0
        |> setIsThrowing false |> setGameState playing
  end.

(** [startBossLevel]. *)
Definition startBossLevel (rnd : Q) (s : State) : State :=
  match currentBoss s with
  | None => s
  | Some boss =>
      s |> setApples (generateApples rnd (boss_apples boss))
        |> setStuckKnives [] |> setExplosions []
        |> setKnivesLeft (boss_knives boss) |> setApplesHit 0%Z
        |> setHasUsedContinue false |> setRotation 0
        |> setIsThrowing false |> setGameState playing
  end.

(** ** The rotation loop: one animation frame *)

Definition rotationSpeed (s : State) : Q :=
  bossOr (isBossLevel s) (currentBoss s) boss_speed ROTATION_SPEED
  + inject_Z (stage s - 1) * (1 # 10).

Definition frame (s : State) : State :=
  if GameState_eqb (gameState s) playing
  then setRotation (js_mod (rotation s + rotationSpeed s) 360) s
  else s.

(** ** Throwing a knife *)

(** The collision loop over the stuck knives. *)
Definition collides (knives : list Q) (hitAngle : Q) : bool :=
  existsb (fun kAngle => Qltb (angleDiff kAngle hitAngle) COLLISION_GAP) knives.

(** The test applied to one apple by the [map] over the apples. *)
Definition appleIsHit (hitAngle : Q) (apple : AppleData) : bool :=
  apple_visible apple && Qltb (angleDiff (apple_angle apple) hitAngle) APPLE_GAP.

Definition hitApples (hitAngle : Q) (aps : list AppleData) : list AppleData :=
  filter (appleIsHit hitAngle) aps.

Definition markApples (hitAngle : Q) (aps : list AppleData) : list AppleData :=
  map (fun apple =>
         if appleIsHit hitAngle apple
         then mkApple (apple_id apple) (apple_angle apple) false
         else apple) aps.

(** The synchronous part of [throwKnife]: the guard, the in-flight
    flag, the hit angle read from the rotation, and the animation
    started with its completion callback. *)
Definition throwKnife (s : State) : State :=
  if negb (GameState_eqb (gameState s) playing)
     || (knivesLeft s <=? 0)%Z || isThrowing s
  then s
  else
    s |> setIsThrowing true
      |> setPending (pending s ++
           [Landing (hitAngleOf (rotation s)) (stuckKnives s) (apples s)
                    (isBossLevel s) (currentBoss s)]).

(** The completion callback of the throw animation. *)
Definition landed (hitAngle : Q) (cStuckKnives : list Q)
    (cApples : list AppleData) (cIsBossLevel : bool)
    (cCurrentBoss : option BossData) (s : State) : State :=
  if collides cStuckKnives hitAngle then
    s |> setGameState failed |> setIsThrowing false
  else
    let hits := hitApples hitAngle cApples in
    let appleHitCount := Z.of_nat (length hits) in
    let s1 := modExplosions (fun e => e ++ map apple_angle hits) s in
    let s2 :=
      if (0 <? appleHitCount)%Z then
        s1 |> setApples (markApples hitAngle cApples)
           |> modScore (fun sc => sc + 5 * appleHitCount)%Z
           |> modApplesHit (fun a => a + appleHitCount)%Z
           |> modCoins (fun c => c + 5 * appleHitCount)%Z
      else s1 in
    let newKnives := cStuckKnives ++ [hitAngle] in
    let s3 :=
      s2 |> setStuckKnives newKnives
         |> modKnivesLeft (fun k => k - 1)%Z
         |> modScore (fun sc => sc + 10)%Z in
    let totalKnives := bossOr cIsBossLevel cCurrentBoss boss_knives BASE_KNIVES in
    let s4 :=
      if (totalKnives <=? Z.of_nat (length newKnives))%Z
      then setPending (pending s3 ++ [WinTimer cIsBossLevel cCurrentBoss]) s3
      else s3 in
    setIsThrowing false s4.

(** The timer callback that applies the win. *)
Definition winTimeout (cIsBossLevel : bool) (cCurrentBoss : option BossData)
    (s : State) : State :=
  let stageReward := bossOr cIsBossLevel cCurrentBoss boss_reward 50%Z in
  s |> modScore (fun sc => sc + stageReward)%Z
    |> modCoins (fun c => c + stageReward)%Z
    |> setGameState win.

Definition runCallback (cb : Callback) (s : State) : State :=
  match cb with
  | Landing h ks aps bl b => landed h ks aps bl b s
  | WinTimer bl b => winTimeout bl b s
  end.

(** ** Rewards, continue, restart, next stage *)

(** [claimDailyReward]. *)
Definition claimDailyReward (s : State) : State :=
  let newDay := (Z.rem (rewardDay s) (Z.of_nat (length DAILY_REWARDS)) + 1)%Z in
  s |> modCoins (fun c => c + dailyRewardAmount s)%Z
    |> setRewardDay newDay
    |> setShowDailyReward false.

(** [watchAdContinue]. *)
Definition watchAdContinue (s : State) : State :=
  s |> setHasUsedContinue true |> setKnivesLeft 3%Z |> setGameState playing.

(** [nextStage]. *)
Definition nextStage (rnd : Q) (s : State) : State :=
  let newStage := (stage s + 1)%Z in
  s |> setStage newStage |> initGame rnd newStage.

(** [watchAdDouble]. *)
Definition watchAdDouble (rnd : Q) (s : State) : State :=
  let bonus := bossOr (isBossLevel s) (currentBoss s) boss_reward 50%Z in
  s |> modCoins (fun c => c + bonus)%Z |> nextStage rnd.

(** [restartGame]. *)
Definition restartGame (rnd : Q) (s : State) : State :=
  s |> setScore 0%Z |> setStage 1%Z |> setIsBossLevel false
    |> setCurrentBoss None |> initGame rnd 1%Z.

(** The effect that follows the score: [if (score > highScore)
    setHighScore(score)]. *)
Definition recordHighScore (s : State) : State :=
  if (highScore s <? score s)%Z then setHighScore (score s) s else s.

(** ** Loading the saved data *)

(** What the storage returned on mount: the saved coins, high score
    and streak day, and whether the saved claim date differs from
    today's. *)
Record Saved := mkSaved {
  savedCoins : Z;
  savedHighScore : Z;
  savedRewardDay : Z;
  rewardIsDue : bool
}.

(** [DAILY_REWARDS[i]]: no value outside the table. *)
Definition dailyRewardAt (i : Z) : option Z :=
  if (i <? 0)%Z then None else nth_error DAILY_REWARDS (Z.to_nat i).

(** The values of the [useState] hooks on the first render. *)
Definition mountState : State :=
  mkState 0 [] [] [] BASE_KNIVES ready 1%Z 0%Z 0%Z false false None false
          0%Z 0%Z false 1%Z 50%Z [].

(** [loadSavedData].  The result is [None] when the streak day read
    from the storage selects no entry of the table: the reward would
    then be no number, which the integer counters here cannot hold. *)
Definition loadSavedData (sv : Saved) (s : State) : option State :=
  let s1 :=
    s |> setCoins (savedCoins sv) |> setHighScore (savedHighScore sv)
      |> setRewardDay (savedRewardDay sv) in
  if rewardIsDue sv then
    match dailyRewardAt (Z.rem (savedRewardDay sv - 1)
                               (Z.of_nat (length DAILY_REWARDS))) with
    | Some reward =>
        Some (s1 |> setDailyRewardAmount reward |> setShowDailyReward true)
    | None => None
    end
  else Some s1.

(** ** Events and the controls of the screen *)

(** What can happen to the mounted component: an animation frame, a
    press on one of its controls, or a scheduled callback coming due.
    The presses that start a normal stage carry the random number
    that [generateApples] draws. *)
Inductive Event :=
| Frame
| Tap
| Fire (i : nat)
| PressClaim
| PressPlay (rnd : Q)
| PressFight (rnd : Q)
| PressContinue
| PressRestart (rnd : Q)
| PressNext (rnd : Q)
| PressDouble (rnd : Q).

Fixpoint removeNth {A : Type} (i : nat) (l : list A) : list A :=
  match l, i with
  | [], _ => []
  | _ :: r, O => r
  | x :: r, S j => x :: removeNth j r
  end.

(** The [i]-th scheduled callback runs.  The two delays of the source
    are equal, so callbacks come due oldest first, which is [fire 0];
    the other indices cover every other order. *)
Definition fire (i : nat) (s : State) : State :=
  match nth_error (pending s) i with
  | None => s
  | Some cb => runCallback cb (setPending (removeNth i (pending s)) s)
  end.

(** The handler of an event.  A control that the current render does
    not show, or shows disabled, cannot be pressed: the press then
    leaves the state as it is.  The conditions are those of the
    markup: the throw area is disabled unless playing; each overlay is
    rendered for one value of [gameState]; the continue button also
    needs [!hasUsedContinue]; the reward dialog needs
    [showDailyReward]. *)
Definition handle (e : Event) (s : State) : State :=
  match e with
  | Frame => frame s
  | Tap =>
      if GameState_eqb (gameState s) playing then throwKnife s else s
  | Fire i => fire i s
  | PressClaim =>
      if showDailyReward s then claimDailyReward s else s
  | PressPlay rnd =>
      if GameState_eqb (gameState s) ready then initGame rnd 1%Z s else s
  | PressFight rnd =>
      if GameState_eqb (gameState s) boss_intro then startBossLevel rnd s else s
  | PressContinue =>
      if GameState_eqb (gameState s) failed && negb (hasUsedContinue s)
      then watchAdContinue s else s
  | PressRestart rnd =>
      if GameState_eqb (gameState s) failed then restartGame rnd s else s
  | PressNext rnd =>
      if GameState_eqb (gameState s) win then nextStage rnd s else s
  | PressDouble rnd =>
      if GameState_eqb (gameState s) win then watchAdDouble rnd s else s
  end.

(** One event: its handler, then the effects of the render it causes. *)
Definition step (e : Event) (s : State) : State := recordHighScore (handle e s).

Definition run (es : list Event) (s : State) : State :=
  fold_left (fun st e => step e st) es s.

(** The random numbers are in [[0,1)]. *)
Definition validEvent (e : Event) : Prop :=
  match e with
  | PressPlay rnd | PressFight rnd | PressRestart rnd
  | PressNext rnd | PressDouble rnd => 0 <= rnd < 1
  | _ => True
  end.

(** The states of a session: the mounted component with its saved
    data loaded, and whatever events lead to. *)
Inductive reachable : State -> Prop :=
| reach_boot sv s :
    loadSavedData sv mountState = Some s -> reachable s
| reach_step e s :
    reachable s -> validEvent e -> reachable (step e s).

(** ** Notions used by the properties *)

(** Every two distinct entries of a ledger are at least the collision
    gap apart. *)
Definition Separated (l : list Q) : Prop :=
  forall i j a b,
    i <> j -> nth_error l i = Some a -> nth_error l j = Some b ->
    COLLISION_GAP <= angularDistance a b.

(** The knife budget of a stage: the boss's on a boss stage, else 10. *)
Definition stageBudget (stageNum : Z) : Z :=
  match getBossForStage stageNum with
  | Some boss => boss_knives boss
  | None => BASE_KNIVES
  end.

(** The reward for completing the round in progress. *)
Definition stageReward (s : State) : Z :=
  bossOr (isBossLevel s) (currentBoss s) boss_reward 50%Z.

(** The board turned by [k] frames at speed [v]. *)
Definition spin (v : Q) (k : nat) (rot : Q) : Q :=
  Nat.iter k (fun r => js_mod (r + v) 360) rot.

(** A series of throws: before each tap the board turns some frames,
    and some more while the knife flies. *)
Fixpoint volley (gaps : list (nat * nat)) : list Event :=
  match gaps with
  | [] => []
  | (k, m) :: rest =>
      repeat Frame k ++ Tap :: repeat Frame m ++ Fire 0 :: volley rest
  end.


(** ** The invariant of the ledger *)

(** What the invariant asks of a scheduled callback: a landing holds
    a ledger that is itself separated. *)
Definition closureSeparated (cb : Callback) : Prop :=
  match cb with
  | Landing _ ks _ _ _ => Separated ks
  | WinTimer _ _ => True
  end.

Definition ledgerInv (s : State) : Prop :=
  Separated (stuckKnives s) /\ Forall closureSeparated (pending s).

(** ** The invariant of the economy *)

(** A boss record, where there is one, pays a reward that is not
    negative. *)
Definition rewardOk (boss : option BossData) : Prop :=
  forall b, boss = Some b -> (0 <= boss_reward b)%Z.

Definition closureRewardOk (cb : Callback) : Prop :=
  match cb with
  | Landing _ _ _ _ boss => rewardOk boss
  | WinTimer _ boss => rewardOk boss
  end.

Definition economyInv (s : State) : Prop :=
  (0 <= dailyRewardAmount s)%Z /\
  rewardOk (currentBoss s) /\
  Forall closureRewardOk (pending s).

(** ** The invariant of the daily reward *)

(** While the reward dialog is shown, the amount it offers is the
    entry of the table for the streak day. *)
Definition dailyInv (s : State) : Prop :=
  showDailyReward s = true ->
  dailyRewardAt (Z.rem (rewardDay s - 1) (Z.of_nat (length DAILY_REWARDS)))
  = Some (dailyRewardAmount s).

Definition dailyFields (s : State) : bool * Z * Z :=
  (showDailyReward s, rewardDay s, dailyRewardAmount s).

(** ** Runs without the high-score effect *)

(** No handler reads the high score, so a run can be followed on the
    handlers alone. *)
Definition handleRun (es : list Event) (s : State) : State :=
  fold_left (fun st e => handle e st) es s.

(** Two states that differ in the high score at most. *)
Definition sameButHighScore (s t : State) : Prop :=
  setHighScore 0%Z s = setHighScore 0%Z t.



(** ** Decision procedures for the conditions on angles *)



Definition validEventb (e : Event) : bool :=
  match e with
  | PressPlay rnd | PressFight rnd | PressRestart rnd
  | PressNext rnd | PressDouble rnd => Qle_bool 0 rnd && Qltb rnd 1
  | _ => true
  end.

(** ** Sessions used as examples *)

(** A launch with nothing saved and no reward due. *)
Definition freshInstall : Saved := mkSaved 0 0 1 false.

(** A launch on the seventh day of a streak, with the reward due. *)
Definition seventhDay : Saved := mkSaved 120 40 7 true.

Definition bootOf (sv : Saved) : State :=
  match loadSavedData sv mountState with
  | Some s => s
  | None => mountState
  end.

(** Stage 1 on a display of 60 frames a second, where the 100 ms of a
    flight are 6 frames: a knife lands, the next tap one frame later
    hits it, and the round has failed with its continue unused. *)
Definition firstFailure : list Event :=
  PressPlay 0 :: volley [(0, 6); (1, 6)]%nat.

(** The round goes on: the continue is taken, a knife lands, the next
    one collides, and the round has failed a second time. *)
Definition secondFailure : list Event :=
  firstFailure ++ PressContinue :: volley [(0, 6); (1, 6)]%nat.

(** Stage 1 played on the beat, one throw every 24 frames, on a
    display of 120 frames a second, where a flight is 12 frames. *)
Definition onTheBeat : list (nat * nat) := repeat (12, 12)%nat 10.

(** Stage 1 on the same display.  Nine knives land 36 degrees apart,
    the tenth throw collides, and the continue is taken.  The next
    knife lands as the tenth of the ledger and starts the win timer;
    two frames later, before that timer is due, the player taps
    again; the timer runs, and then the last knife lands. *)
Definition tapBeforeWinTimer : list Event :=
  PressPlay 0 ::
  volley ((0, 12) :: repeat (12, 12) 8 ++ [(36, 12)])%nat ++
  PressContinue ::
  volley [(192, 12)]%nat ++
  repeat Frame 2 ++ Tap :: repeat Frame 10 ++ [Fire 0; Fire 0].

(** Stage 1 at 60 frames a second: one knife has landed and the board
    has turned one more frame. *)
Definition afterFirstKnife : list Event :=
  PressPlay 0 :: volley [(0, 6)]%nat ++ [Frame].

(** The states those sessions end in, computed once. *)
Definition failedOnce : State :=
  Eval vm_compute in run firstFailure (bootOf freshInstall).

Definition failedTwice : State :=
  Eval vm_compute in run secondFailure (bootOf freshInstall).

Definition oneKnifeIn : State :=
  Eval vm_compute in run afterFirstKnife (bootOf freshInstall).

Definition wonWithEleven : State :=
  Eval vm_compute in run tapBeforeWinTimer (bootOf freshInstall).

Definition cleanWin : State :=
  Eval vm_compute in
    run (PressPlay 0 :: volley onTheBeat ++ [Fire 0]) (bootOf freshInstall).

(** ** Sessions in which nothing overlaps a pending callback *)

(** What the player and the display do.  A throw here is a tap taken
    together with the frames of its flight, its landing and, when the
    landing starts one, the win timer. *)
Inductive Action :=
| AFrame
| AThrow (flight : nat)
| AClaim
| APlay (rnd : Q)
| AFight (rnd : Q)
| AContinue
| ARestart (rnd : Q)
| ANext (rnd : Q)
| ADouble (rnd : Q).

Definition eventsOf (a : Action) : list Event :=
  match a with
  | AFrame => [Frame]
  | AThrow m => (Tap :: repeat Frame m ++ [Fire 0]) ++ [Fire 0]
  | AClaim => [PressClaim]
  | APlay rnd => [PressPlay rnd]
  | AFight rnd => [PressFight rnd]
  | AContinue => [PressContinue]
  | ARestart rnd => [PressRestart rnd]
  | ANext rnd => [PressNext rnd]
  | ADouble rnd => [PressDouble rnd]
  end.

(** The states of the sessions in which every callback runs before
    the next tap or press. *)
Inductive quietReachable : State -> Prop :=
| quiet_boot sv s :
    loadSavedData sv mountState = Some s -> quietReachable s
| quiet_act a s :
    quietReachable s -> quietReachable (run (eventsOf a) s).

(** The knife budget that [throwKnife] compares the ledger with. *)
Definition knifeBudget (s : State) : Z :=
  bossOr (isBossLevel s) (currentBoss s) boss_knives BASE_KNIVES.

(** The boss fields agree with the stage. *)
Definition bossConsistent (s : State) : Prop :=
  currentBoss s = getBossForStage (stage s) /\
  isBossLevel s = match currentBoss s with Some _ => true | None => false end.

(** The last knife of a ledger passed the collision loop against the
    knives before it. *)
Definition lastKnifeClean (l : list Q) : Prop :=
  exists ks h, l = ks ++ [h] /\ collides ks h = false.

Definition quietInv (s : State) : Prop :=
  pending s = [] /\
  isThrowing s = false /\
  bossConsistent s /\
  (gameState s = ready -> stage s = 1%Z) /\
  (gameState s = win ->
     Z.of_nat (length (stuckKnives s)) = knifeBudget s /\
     lastKnifeClean (stuckKnives s)) /\
  (gameState s = playing \/ gameState s = failed ->
     (Z.of_nat (length (stuckKnives s)) < knifeBudget s)%Z).

(** ** Further invariants of a session *)

(** The stage counts from 1, the boss fields follow it, the boss
    introduction always has its boss, and the title screen is only
    shown on stage 1. *)
Definition stageInv (s : State) : Prop :=
  (1 <= stage s)%Z /\
  bossConsistent s /\
  (gameState s = boss_intro -> currentBoss s <> None) /\
  (gameState s = ready -> stage s = 1%Z).

(** An angle of the board: in [[0, 360)]. *)
Definition inRange (a : Q) : Prop := 0 <= a < 360.

Definition closureRange (cb : Callback) : Prop :=
  match cb with
  | Landing h ks aps _ _ =>
      inRange h /\ Forall inRange ks /\ Forall inRange (map apple_angle aps)
  | WinTimer _ _ => True
  end.

Definition rangeInv (s : State) : Prop :=
  inRange (rotation s) /\
  Forall inRange (stuckKnives s) /\
  Forall inRange (map apple_angle (apples s)) /\
  Forall closureRange (pending s).

(** The stages that have a boss. *)
Definition bossStages : list Z := [5; 10; 15; 20; 25]%Z.

(** The apples still on the board. *)
Definition visibleCount (aps : list AppleData) : nat :=
  length (filter apple_visible aps).

(** Any two apples of a list are 30 degrees apart or more: twice the
    reach of a knife. *)
Definition applesApart (aps : list AppleData) : Prop :=
  forall i j a b,
    i <> j -> nth_error aps i = Some a -> nth_error aps j = Some b ->
    APPLE_GAP + APPLE_GAP <= angularDistance (apple_angle a) (apple_angle b).

Definition closureApart (cb : Callback) : Prop :=
  match cb with
  | Landing _ _ aps _ _ => applesApart aps
  | WinTimer _ _ => True
  end.

Definition apartInv (s : State) : Prop :=
  applesApart (apples s) /\ Forall closureApart (pending s).

(** The round of [firstFailure] goes on at the same pace: the
    continue is taken and its three knives land clear of the one in
    the board. *)
Definition continueSpent : list Event :=
  firstFailure ++ PressContinue :: volley [(0, 6); (6, 6); (6, 6)]%nat.

Definition outOfKnives : State :=
  Eval vm_compute in run continueSpent (bootOf freshInstall).

(** The accounts of a round: the apples counted as hit are the
    invisible ones, and while a round is on the knives left are within
    the budget and, until a continue, are the budget less the knives
    in the board. *)
Definition countInv (s : State) : Prop :=
  applesHit s
  = (Z.of_nat (length (apples s)) - Z.of_nat (visibleCount (apples s)))%Z /\
  (gameState s = playing \/ gameState s = failed \/ gameState s = win ->
   (0 <= knivesLeft s <= knifeBudget s)%Z /\
   (hasUsedContinue s = false ->
    (knivesLeft s + Z.of_nat (length (stuckKnives s)))%Z = knifeBudget s)).

(** ** The explosions of hit apples *)

(** [removeExplosion], run when the animation of an explosion is
    over: [e.filter((a) => a !== angle)]. *)
Definition removeExplosion (angle : Q) (s : State) : State :=
  modExplosions (filter (fun a => negb (Qeq_bool a angle))) s.

(** A session in which explosions end as well. *)
Inductive Happening :=
| Ev (e : Event)
| ExplosionOver (angle : Q).

Definition happen (x : Happening) (s : State) : State :=
  match x with
  | Ev e => step e s
  | ExplosionOver angle => removeExplosion angle s
  end.

Definition play (xs : list Happening) (s : State) : State :=
  fold_left (fun st x => happen x st) xs s.

Fixpoint eventsOnly (xs : list Happening) : list Event :=
  match xs with
  | [] => []
  | Ev e :: rest => e :: eventsOnly rest
  | ExplosionOver _ :: rest => eventsOnly rest
  end.

(** Two states that differ in the explosions at most. *)
Definition sameButExplosions (s t : State) : Prop :=
  setExplosions [] s = setExplosions [] t.

(** * The first version of the screen

    The component of [app/(tabs)/index.tsx]: one stage type, no
    apples, no coins, and a throw that is resolved at once, inside
    the press handler. *)

Module Classic.

Definition TOTAL_KNIVES : Z := 8.
Definition ROTATION_SPEED : Q := 2.
Definition COLLISION_GAP : Q := 25.

Inductive GameState := playing | failed | win.

Record State := mkState {
  rotation : Q;
  knives : list Q;
  knivesLeft : Z;
  gameState : GameState;
  stage : Z;
  score : Z
}.

(** The values of the hooks on the first render. *)
Definition mountState : State := mkState 0 [] TOTAL_KNIVES playing 1 0.

(** The rotation loop: one animation frame, while playing. *)
Definition frame (s : State) : State :=
  match gameState s with
  | playing =>
      mkState (js_mod (rotation s + ROTATION_SPEED) 360) (knives s)
              (knivesLeft s) (gameState s) (stage s) (score s)
  | _ => s
  end.

Definition collides (ks : list Q) (stickAngle : Q) : bool :=
  existsb (fun existingAngle =>
             Qltb (angleDiff existingAngle stickAngle) COLLISION_GAP) ks.

(** [throwKnife]. *)
Definition throwKnife (s : State) : State :=
  match gameState s with
  | playing =>
      if (knivesLeft s <=? 0)%Z then s
      else
        let stickAngle := js_mod (180 - rotation s + 360) 360 in
        if collides (knives s) stickAngle then
          mkState (rotation s) (knives s) (knivesLeft s) failed
                  (stage s) (score s)
        else
          let newKnives := knives s ++ [stickAngle] in
          if (Z.of_nat (length newKnives) =? TOTAL_KNIVES)%Z then
            mkState (rotation s) newKnives (knivesLeft s - 1) win
                    (stage s) (score s + 10 + 50)
          else
            mkState (rotation s) newKnives (knivesLeft s - 1) (gameState s)
                    (stage s) (score s + 10)
  | _ => s
  end.

(** [restartGame]. *)
Definition restartGame (s : State) : State :=
  mkState 0 [] TOTAL_KNIVES playing 1 0.

(** [nextStage]. *)
Definition nextStage (s : State) : State :=
  mkState 0 [] TOTAL_KNIVES playing (stage s + 1) (score s).

Inductive Event := Frame | Tap | PressRetry | PressNext.

(** The handler of an event; the knife is shown while playing, the
    retry button on the failed overlay, the next-stage button on the
    win overlay. *)
Definition handle (e : Event) (s : State) : State :=
  match e, gameState s with
  | Frame, _ => frame s
  | Tap, playing => throwKnife s
  | PressRetry, failed => restartGame s
  | PressNext, win => nextStage s
  | _, _ => s
  end.

Definition run (es : list Event) (s : State) : State :=
  fold_left (fun st e => handle e st) es s.

Inductive reachable : State -> Prop :=
| reach_mount : reachable mountState
| reach_step e s : reachable s -> reachable (handle e s).

(** Every two knives are at least the collision gap apart. *)
Definition Separated (l : list Q) : Prop :=
  forall i j a b,
    i <> j -> nth_error l i = Some a -> nth_error l j = Some b ->
    COLLISION_GAP <= angularDistance a b.

(** What holds of every state of the screen. *)
Definition inv (s : State) : Prop :=
  (1 <= stage s)%Z /\
  0 <= rotation s < 360 /\
  (knivesLeft s + Z.of_nat (length (knives s)))%Z = TOTAL_KNIVES /\
  (0 <= knivesLeft s)%Z /\
  Separated (knives s) /\
  (gameState s = win <-> Z.of_nat (length (knives s)) = TOTAL_KNIVES) /\
  score s = (130 * (stage s - 1) + 10 * Z.of_nat (length (knives s))
             + match gameState s with win => 50 | _ => 0 end)%Z.

End Classic.

(** ** More sessions used as examples *)

(** A round of ten throws, one every 20 frames, and its win timer;
    at the speeds of stages 1 to 4 the knives land 30 to 36 degrees
    apart. *)
Definition steadyRound : list Event :=
  volley (repeat (8, 12) 10)%nat ++ [Fire 0].

(** Four such rounds from the title screen, each followed by the
    next-stage button: the boss introduction of stage 5 is up. *)
Definition toFirstBoss : list Event :=
  PressPlay 0 :: steadyRound ++ PressNext 0 :: steadyRound ++
  PressNext 0 :: steadyRound ++ PressNext 0 :: steadyRound ++ [PressNext 0].

Definition bossIntroUp : State :=
  Eval vm_compute in run toFirstBoss (bootOf freshInstall).

(** A second knife is in the air. *)
Definition knifeInFlight : State :=
  Eval vm_compute in run (afterFirstKnife ++ [Tap]) (bootOf freshInstall).

(** The play button, a throw, a frame and a throw that collides,
    with nothing overlapping. *)
Definition quietFailure : list Action :=
  [APlay 0; AThrow 6; AFrame; AThrow 6].

Definition runActions (acts : list Action) (s : State) : State :=
  fold_left (fun st a => run (eventsOf a) st) acts s.

Definition quietlyFailed : State :=
  Eval vm_compute in runActions quietFailure (bootOf freshInstall).

(** Ten throws on the beat and the next-stage button. *)
Definition quietWinActions : list Action :=
  APlay 0 ::
  concat (repeat (repeat AFrame 12 ++ [AThrow 12]) 10).

Definition quietlyWon : State :=
  Eval vm_compute in runActions quietWinActions (bootOf freshInstall).

(** The first version of the screen: eight throws, one every 13
    frames, land 26 degrees apart. *)
Definition classicEight : list Classic.Event :=
  concat (repeat (Classic.Tap :: repeat Classic.Frame 13) 8).

Definition classicWon : Classic.State :=
  Eval vm_compute in Classic.run classicEight Classic.mountState.

Fixpoint applesApartb (aps : list AppleData) : bool :=
  match aps with
  | [] => true
  | a :: rest =>
      forallb (fun b => Qle_bool (APPLE_GAP + APPLE_GAP)
                          (angularDistance (apple_angle a) (apple_angle b))) rest
      && applesApartb rest
  end.

Definition applesOnBoardb (aps : list AppleData) : bool :=
  forallb (fun a => Qle_bool 0 (apple_angle a) && Qltb (apple_angle a) 360) aps.

(** * Properties *)

(** ** Numbers and angles *)

Lemma Qltb_lt (x y : Q) : Qltb x y = true <-> x < y.
Proof.
  unfold Qltb. rewrite negb_true_iff.
  split; intro H.
  - apply Qnot_le_lt. intro L. apply Qle_bool_iff in L. congruence.
  - destruct (Qle_bool y x) eqn:E; trivial.
    apply Qle_bool_iff in E. exfalso. apply (Qlt_not_le _ _ H E).
Qed.

Lemma Qltb_ge (x y : Q) : Qltb x y = false <-> y <= x.
Proof.
  unfold Qltb. rewrite negb_false_iff. apply Qle_bool_iff.
Qed.

Lemma Qfloor_unit (x : Q) : 0 <= x < 1 -> Qfloor x = 0%Z.
Proof.
  intros [H0 H1].
  pose proof (Qfloor_resp_le _ _ H0) as L. change (Qfloor 0) with 0%Z in L.
  assert (U : (Qfloor x < 1)%Z).
  { rewrite Zlt_Qlt. apply Qle_lt_trans with x; [apply Qfloor_le | exact H1]. }
  lia.
Qed.

(** A dividend already in [[0, m)] is its own remainder. *)
Lemma js_mod_small (x m : Q) : 0 < m -> 0 <= x < m -> js_mod x m == x.
Proof.
  intros Hm [H0 H1]. unfold js_mod, Qtrunc.
  assert (D0 : 0 <= x / m).
  { apply Qle_shift_div_l; trivial. lra. }
  assert (D1 : x / m < 1).
  { apply Qlt_shift_div_r; trivial. lra. }
  destruct (Qle_bool 0 (x / m)) eqn:E.
  - rewrite Qfloor_unit by (split; trivial). change (inject_Z 0) with 0. lra.
  - exfalso. apply Qle_bool_iff in D0. congruence.
Qed.

(** The inline distance of the source is the angular distance. *)
Lemma angleDiff_angularDistance (a b : Q) : angleDiff a b == angularDistance a b.
Proof.
  unfold angleDiff, angularDistance. cbv zeta.
  destruct (Qltb 180 (Qabs (a - b))) eqn:E.
  - apply Qltb_lt in E. symmetry. apply Q.min_r. lra.
  - apply Qltb_ge in E. symmetry. apply Q.min_l. lra.
Qed.

Lemma angularDistance_sym (a b : Q) : angularDistance a b = angularDistance b a.
Proof.
  unfold angularDistance. now rewrite (Qabs_Qminus a b).
Qed.

Lemma collides_false (ks : list Q) (h : Q) :
  collides ks h = false <->
  forall k, In k ks -> COLLISION_GAP <= angularDistance k h.
Proof.
  unfold collides. split.
  - intros H k Hk.
    rewrite <- angleDiff_angularDistance. apply Qltb_ge.
    destruct (Qltb (angleDiff k h) COLLISION_GAP) eqn:E; trivial.
    assert (X : existsb (fun kAngle => Qltb (angleDiff kAngle h) COLLISION_GAP) ks = true).
    { apply existsb_exists. now exists k. }
    congruence.
  - intros H.
    destruct (existsb _ ks) eqn:E; trivial.
    apply existsb_exists in E. destruct E as [k [Hk L]].
    apply Qltb_lt in L. rewrite angleDiff_angularDistance in L.
    specialize (H k Hk). lra.
Qed.

Lemma collides_true (ks : list Q) (h : Q) :
  collides ks h = true <->
  exists k, In k ks /\ angularDistance k h < COLLISION_GAP.
Proof.
  unfold collides. rewrite existsb_exists.
  split; intros [k [Hk L]]; exists k; split; trivial.
  - apply Qltb_lt in L. now rewrite angleDiff_angularDistance in L.
  - apply Qltb_lt. now rewrite angleDiff_angularDistance.
Qed.

(** ** Apples are evenly spaced *)

Lemma generateApplesAt_nth (offset : Q) (n : Z) (i : nat) :
  nth_error (map apple_angle (generateApplesAt offset n)) i =
  if (i <? Z.to_nat n)%nat
  then Some (js_mod (offset + inject_Z (Z.of_nat i) * (360 / inject_Z n)) 360)
  else None.
Proof.
  unfold generateApplesAt.
  rewrite !nth_error_map, nth_error_seq.
  destruct (i <? Z.to_nat n)%nat; reflexivity.
Qed.

Section Spacing.
Variable n : Z.
Variable offset : Q.
Hypothesis n_pos : (0 < n)%Z.
Hypothesis offset_range : 0 <= offset < 360 / inject_Z n.

Lemma count_pos : 0 < inject_Z n.
Proof. change 0 with (inject_Z 0). now rewrite <- Zlt_Qlt. Qed.

Lemma gap_pos : 0 < (360 / inject_Z n).
Proof.
  apply Qlt_shift_div_l; [apply count_pos | lra].
Qed.

Lemma gap_total : inject_Z n * (360 / inject_Z n) == 360.
Proof.
  field. pose proof count_pos. lra.
Qed.

(** The [i]-th angle before the remainder is taken. *)
Lemma slot_range (i : nat) :
  (i < Z.to_nat n)%nat ->
  0 <= offset + inject_Z (Z.of_nat i) * (360 / inject_Z n) < 360.
Proof.
  intros Hi.
  pose proof gap_pos as G. pose proof gap_total as T.
  assert (I0 : 0 <= inject_Z (Z.of_nat i)).
  { change 0 with (inject_Z 0). rewrite <- Zle_Qle. lia. }
  assert (I1 : inject_Z (Z.of_nat i) + 1 <= inject_Z n).
  { change 1 with (inject_Z 1). rewrite <- inject_Z_plus, <- Zle_Qle. lia. }
  assert (P0 : 0 <= inject_Z (Z.of_nat i) * (360 / inject_Z n)).
  { apply Qmult_le_0_compat; lra. }
  assert (P1 : (inject_Z (Z.of_nat i) + 1) * (360 / inject_Z n) <= inject_Z n * (360 / inject_Z n)).
  { apply Qmult_le_compat_r; lra. }
  split; [lra|].
  rewrite T in P1.
  assert (E : (inject_Z (Z.of_nat i) + 1) * (360 / inject_Z n)
              == inject_Z (Z.of_nat i) * (360 / inject_Z n) + (360 / inject_Z n)) by ring.
  rewrite E in P1. lra.
Qed.

Lemma slot_angle (i : nat) :
  (i < Z.to_nat n)%nat ->
  js_mod (offset + inject_Z (Z.of_nat i) * (360 / inject_Z n)) 360
  == offset + inject_Z (Z.of_nat i) * (360 / inject_Z n).
Proof.
  intros Hi. apply js_mod_small; [lra | now apply slot_range].
Qed.
End Spacing.


(** The offset that [generateApples] draws is in the range the
    property asks for. *)
Lemma generateApples_offset (rnd : Q) (n : Z) :
  (0 < n)%Z -> 0 <= rnd < 1 ->
  0 <= rnd * (360 / inject_Z n) < 360 / inject_Z n.
Proof.
  intros Hn [R0 R1]. pose proof (gap_pos n Hn) as G. split.
  - apply Qmult_le_0_compat; lra.
  - rewrite <- (Qmult_1_l (360 / inject_Z n)) at 2.
    apply Qmult_lt_compat_r; trivial.
Qed.


(** ** The ledger keeps its knives apart *)

Lemma Separated_nil : Separated [].
Proof. intros [|i] j a b _ H; discriminate. Qed.

(** A knife that passes the collision loop can join the ledger. *)
Lemma Separated_snoc (ks : list Q) (h : Q) :
  Separated ks -> collides ks h = false -> Separated (ks ++ [h]).
Proof.
  intros S C i j a b Hij Ha Hb.
  rewrite collides_false in C.
  assert (Li : (i < length (ks ++ [h]))%nat)
    by (apply nth_error_Some; congruence).
  assert (Lj : (j < length (ks ++ [h]))%nat)
    by (apply nth_error_Some; congruence).
  rewrite length_app in Li, Lj. cbn in Li, Lj.
  destruct (Nat.lt_ge_cases i (length ks)) as [Ii|Ii];
    destruct (Nat.lt_ge_cases j (length ks)) as [Ij|Ij].
  - rewrite nth_error_app1 in Ha, Hb by assumption. eapply S; eauto.
  - rewrite nth_error_app1 in Ha by assumption.
    rewrite nth_error_app2 in Hb by assumption.
    replace (j - length ks)%nat with 0%nat in Hb by lia.
    injection Hb as <-. apply C. eapply nth_error_In; eauto.
  - rewrite nth_error_app2 in Ha by assumption.
    rewrite nth_error_app1 in Hb by assumption.
    replace (i - length ks)%nat with 0%nat in Ha by lia.
    injection Ha as <-. rewrite angularDistance_sym.
    apply C. eapply nth_error_In; eauto.
  - lia.
Qed.

Lemma Forall_removeNth {A : Type} (P : A -> Prop) (i : nat) (l : list A) :
  Forall P l -> Forall P (removeNth i l).
Proof.
  intros H. revert i. induction H as [|x l Hx Hl IH]; intros [|i]; cbn; auto.
Qed.

Lemma ledgerInv_landed h ks aps bl b s :
  Separated ks -> ledgerInv s -> ledgerInv (landed h ks aps bl b s).
Proof.
  intros K [S P]. unfold landed.
  destruct (collides ks h) eqn:C.
  - split; cbn; assumption.
  - cbv zeta.
    destruct (0 <? _)%Z; destruct (_ <=? _)%Z; split; cbn;
      try (apply Separated_snoc; assumption);
      try assumption;
      apply Forall_app; split; trivial; repeat constructor.
Qed.

Lemma ledgerInv_only_ledger (s s' : State) :
  stuckKnives s' = stuckKnives s -> pending s' = pending s ->
  ledgerInv s -> ledgerInv s'.
Proof. unfold ledgerInv. intros -> ->. trivial. Qed.

Lemma ledgerInv_fire (i : nat) (s : State) : ledgerInv s -> ledgerInv (fire i s).
Proof.
  intros [S P]. unfold fire.
  destruct (nth_error (pending s) i) as [cb|] eqn:E; [|now split].
  assert (C : closureSeparated cb).
  { rewrite Forall_forall in P. apply P. eapply nth_error_In; eauto. }
  assert (I : ledgerInv (setPending (removeNth i (pending s)) s)).
  { split; cbn; trivial. now apply Forall_removeNth. }
  destruct cb as [h ks aps bl b|bl b]; cbn [runCallback].
  - now apply ledgerInv_landed.
  - revert I. now apply ledgerInv_only_ledger.
Qed.

Lemma ledgerInv_throwKnife (s : State) : ledgerInv s -> ledgerInv (throwKnife s).
Proof.
  intros [S P]. unfold throwKnife.
  destruct (_ || _); [now split|].
  split; cbn; trivial.
  apply Forall_app. split; trivial. now repeat constructor.
Qed.

Lemma ledgerInv_initGame (rnd : Q) (stageNum : Z) (s : State) :
  ledgerInv s -> ledgerInv (initGame rnd stageNum s).
Proof.
  intros [S P]. unfold initGame.
  destruct (getBossForStage stageNum); split; cbn; trivial.
  apply Separated_nil.
Qed.

Lemma ledgerInv_startBossLevel (rnd : Q) (s : State) :
  ledgerInv s -> ledgerInv (startBossLevel rnd s).
Proof.
  intros [S P]. unfold startBossLevel.
  destruct (currentBoss s); split; cbn; trivial.
  apply Separated_nil.
Qed.

Lemma ledgerInv_handle (e : Event) (s : State) :
  ledgerInv s -> ledgerInv (handle e s).
Proof.
  intros I.
  destruct e; cbn [handle];
    try (destruct (GameState_eqb _ _); [|exact I]).
  - unfold frame. destruct (GameState_eqb _ _); exact I.
  - now apply ledgerInv_throwKnife.
  - now apply ledgerInv_fire.
  - destruct (showDailyReward s); exact I.
  - now apply ledgerInv_initGame.
  - now apply ledgerInv_startBossLevel.
  - destruct (_ && _); exact I.
  - unfold restartGame. now apply ledgerInv_initGame.
  - unfold nextStage. now apply ledgerInv_initGame.
  - unfold watchAdDouble, nextStage. now apply ledgerInv_initGame.
Qed.

Lemma ledgerInv_step (e : Event) (s : State) :
  ledgerInv s -> ledgerInv (step e s).
Proof.
  intros I. unfold step, recordHighScore.
  destruct (_ <? _)%Z; [|now apply ledgerInv_handle].
  apply ledgerInv_only_ledger with (handle e s); trivial.
  now apply ledgerInv_handle.
Qed.

Lemma loadSavedData_ledger (sv : Saved) (s s' : State) :
  loadSavedData sv s = Some s' ->
  stuckKnives s' = stuckKnives s /\ pending s' = pending s.
Proof.
  unfold loadSavedData.
  destruct (rewardIsDue sv); [destruct (dailyRewardAt _)|];
    intros H; inversion H; now split.
Qed.

Lemma reachable_ledgerInv (s : State) : reachable s -> ledgerInv s.
Proof.
  induction 1 as [sv s L|e s R IH V].
  - apply loadSavedData_ledger in L. destruct L as [L1 L2].
    split; [rewrite L1 | rewrite L2]; cbn; [apply Separated_nil | constructor].
  - now apply ledgerInv_step.
Qed.

(** C1.  In every reachable state any two entries of the stuck-knife
    ledger are at angular distance at least 18; and the resolution of
    a throw either fails the round without touching the ledger, when
    the hit angle is closer than 18 to a knife it was thrown against,
    or appends the angle to a ledger that stays separated. *)
Theorem stuckKnives_separated (s : State) :
  reachable s ->
  Separated (stuckKnives s) /\
  forall i h ks aps bl b,
    nth_error (pending s) i = Some (Landing h ks aps bl b) ->
    let s' := fire i s in
    Separated (stuckKnives s') /\
    ((exists k, In k ks /\ angularDistance k h < COLLISION_GAP) ->
       gameState s' = failed /\ stuckKnives s' = stuckKnives s) /\
    ((forall k, In k ks -> COLLISION_GAP <= angularDistance k h) ->
       stuckKnives s' = ks ++ [h]).
Proof.
  intros R. pose proof (reachable_ledgerInv s R) as I.
  split; [apply I|].
  intros i h ks aps bl b E s'.
  split; [apply (ledgerInv_fire i s I)|].
  unfold s', fire. rewrite E. cbn [runCallback]. unfold landed.
  split.
  - intros C. apply collides_true in C. rewrite C. now split.
  - intros C. apply collides_false in C. rewrite C. cbv zeta.
    destruct (0 <? _)%Z; destruct (_ <=? _)%Z; reflexivity.
Qed.


(** ** Coins are only ever credited *)

(** Reduce the projections of updated states, leaving arithmetic alone. *)
Ltac proj :=
  cbn -[Z.add Z.mul Z.sub Z.of_nat Z.rem Z.leb Z.ltb getBossForStage].

Lemma getBossForStage_In (stageNum : Z) (b : BossData) :
  getBossForStage stageNum = Some b -> In b BOSSES /\ boss_stage b = stageNum.
Proof.
  unfold getBossForStage. intros H. apply find_some in H.
  destruct H as [H1 H2]. split; trivial. now apply Z.eqb_eq.
Qed.

Lemma BOSSES_reward (b : BossData) : In b BOSSES -> (200 <= boss_reward b)%Z.
Proof.
  cbn. intros H.
  repeat (destruct H as [<-|H]; [cbn; lia|]). contradiction.
Qed.

Lemma rewardOk_None : rewardOk None.
Proof. intros b H. discriminate. Qed.

Lemma rewardOk_getBossForStage (stageNum : Z) : rewardOk (getBossForStage stageNum).
Proof.
  intros b H. apply getBossForStage_In in H. destruct H as [H _].
  apply BOSSES_reward in H. lia.
Qed.

Lemma bossOr_reward_nonneg (bl : bool) (boss : option BossData) :
  rewardOk boss -> (0 <= bossOr bl boss boss_reward 50)%Z.
Proof.
  intros H. unfold bossOr. destruct boss as [b|]; [|lia].
  destruct bl; [|lia]. now apply H.
Qed.

Lemma economyInv_initGame (rnd : Q) (stageNum : Z) (s : State) :
  economyInv s -> economyInv (initGame rnd stageNum s).
Proof.
  intros (D & B & P). unfold initGame.
  destruct (getBossForStage stageNum) eqn:E; repeat split; cbn; trivial.
  - rewrite <- E. apply rewardOk_getBossForStage.
  - apply rewardOk_None.
Qed.

Lemma economyInv_landed h ks aps bl b s :
  rewardOk b -> economyInv s -> economyInv (landed h ks aps bl b s).
Proof.
  intros K (D & B & P). unfold landed.
  destruct (collides ks h); [repeat split; assumption|].
  cbv zeta.
  destruct (0 <? _)%Z; destruct (_ <=? _)%Z; repeat split; cbn; trivial;
    apply Forall_app; split; trivial; now repeat constructor.
Qed.

Lemma economyInv_fire (i : nat) (s : State) : economyInv s -> economyInv (fire i s).
Proof.
  intros (D & B & P). unfold fire.
  destruct (nth_error (pending s) i) as [cb|] eqn:E; [|now repeat split].
  assert (C : closureRewardOk cb).
  { rewrite Forall_forall in P. apply P. eapply nth_error_In; eauto. }
  assert (I : economyInv (setPending (removeNth i (pending s)) s)).
  { repeat split; cbn; trivial. now apply Forall_removeNth. }
  destruct cb as [h ks aps bl b|bl b]; cbn [runCallback].
  - now apply economyInv_landed.
  - exact I.
Qed.

Lemma economyInv_handle (e : Event) (s : State) :
  economyInv s -> economyInv (handle e s).
Proof.
  intros I.
  destruct e; cbn [handle];
    try (destruct (GameState_eqb _ _); [|exact I]).
  - unfold frame. destruct (GameState_eqb _ _); exact I.
  - destruct I as (D & B & P). unfold throwKnife.
    destruct (_ || _); repeat split; cbn; trivial.
    apply Forall_app. split; trivial. now repeat constructor.
  - now apply economyInv_fire.
  - destruct (showDailyReward s); exact I.
  - now apply economyInv_initGame.
  - unfold startBossLevel. destruct (currentBoss s); exact I.
  - destruct (_ && _); exact I.
  - unfold restartGame. apply economyInv_initGame.
    destruct I as (D & B & P). repeat split; cbn; trivial. apply rewardOk_None.
  - unfold nextStage. now apply economyInv_initGame.
  - unfold watchAdDouble, nextStage. now apply economyInv_initGame.
Qed.

Lemma economyInv_step (e : Event) (s : State) :
  economyInv s -> economyInv (step e s).
Proof.
  intros I. apply (economyInv_handle e) in I.
  unfold step, recordHighScore. destruct (_ <? _)%Z; exact I.
Qed.

Lemma dailyRewardAt_nonneg (i r : Z) : dailyRewardAt i = Some r -> (50 <= r)%Z.
Proof.
  unfold dailyRewardAt. destruct (i <? 0)%Z; [discriminate|].
  intros H. apply nth_error_In in H. cbn in H.
  repeat (destruct H as [<-|H]; [lia|]). contradiction.
Qed.

Lemma reachable_economyInv (s : State) : reachable s -> economyInv s.
Proof.
  induction 1 as [sv s L|e s R IH V].
  - unfold loadSavedData in L.
    destruct (rewardIsDue sv).
    + destruct (dailyRewardAt _) as [r|] eqn:E; [|discriminate].
      injection L as <-. apply dailyRewardAt_nonneg in E.
      repeat split; cbn; [lia | apply rewardOk_None | constructor].
    + injection L as <-.
      repeat split; cbn; [lia | apply rewardOk_None | constructor].
  - now apply economyInv_step.
Qed.

Lemma coins_initGame (rnd : Q) (stageNum : Z) (s : State) :
  coins (initGame rnd stageNum s) = coins s.
Proof. unfold initGame. now destruct (getBossForStage stageNum). Qed.

Lemma coins_landed h ks aps bl b s :
  (coins s <= coins (landed h ks aps bl b s))%Z.
Proof.
  unfold landed. destruct (collides ks h); [cbn; lia|].
  cbv zeta.
  destruct (0 <? _)%Z eqn:E; destruct (_ <=? _)%Z; proj; lia.
Qed.

Lemma coins_handle (e : Event) (s : State) :
  economyInv s -> (coins s <= coins (handle e s))%Z.
Proof.
  intros (D & B & P).
  destruct e; cbn [handle];
    try (destruct (GameState_eqb _ _); [|lia]).
  - unfold frame. destruct (GameState_eqb _ _); proj; lia.
  - unfold throwKnife. destruct (_ || _); proj; lia.
  - unfold fire. destruct (nth_error (pending s) i) as [cb|] eqn:E; [|lia].
    assert (C : closureRewardOk cb).
    { rewrite Forall_forall in P. apply P. eapply nth_error_In; eauto. }
    destruct cb as [h ks aps bl b|bl b]; cbn [runCallback].
    + etransitivity; [|apply coins_landed]. proj. lia.
    + proj. pose proof (bossOr_reward_nonneg bl b C). lia.
  - destruct (showDailyReward s); proj; lia.
  - rewrite coins_initGame. lia.
  - unfold startBossLevel. destruct (currentBoss s); proj; lia.
  - destruct (_ && _); proj; lia.
  - unfold restartGame. rewrite coins_initGame. proj. lia.
  - unfold nextStage. rewrite coins_initGame. proj. lia.
  - unfold watchAdDouble, nextStage. rewrite coins_initGame. proj.
    pose proof (bossOr_reward_nonneg (isBossLevel s) (currentBoss s) B). lia.
Qed.

Lemma coins_recordHighScore (s : State) : coins (recordHighScore s) = coins s.
Proof. unfold recordHighScore. now destruct (_ <? _)%Z. Qed.

(** C9.  The coin balance never decreases: from a reachable state,
    whatever happens next (a frame, a throw or its resolution, the win
    timer, a reward claim, the double reward, continue, restart, the
    next stage) leaves the balance as it is or raises it, and so does
    any series of such events. *)
Theorem coins_never_decrease (s : State) :
  reachable s ->
  (forall e, coins (step e s) = coins s \/ (coins s < coins (step e s))%Z) /\
  (forall es, (coins s <= coins (run es s))%Z).
Proof.
  intros R. apply reachable_economyInv in R.
  assert (S1 : forall t e, economyInv t -> (coins t <= coins (step e t))%Z).
  { intros t e I. unfold step. rewrite coins_recordHighScore.
    now apply coins_handle. }
  split.
  - intros e. specialize (S1 s e R). lia.
  - intros es. revert s R. induction es as [|e es IH]; intros s R; cbn.
    + lia.
    + etransitivity; [apply (S1 s e R)|].
      apply IH. now apply economyInv_step.
Qed.

(** ** Continue after a failed round *)

(** C5.  In a failed round whose continue is unused, the continue
    button runs [watchAdContinue]: exactly 3 knives, back to playing,
    with the ledger, the apples, the apple count and the score as they
    were; the continue is then marked used. *)
Theorem watchAdContinue_restores (s : State) :
  gameState s = failed ->
  hasUsedContinue s = false ->
  let s' := handle PressContinue s in
  s' = watchAdContinue s /\
  knivesLeft s' = 3%Z /\
  gameState s' = playing /\
  stuckKnives s' = stuckKnives s /\
  apples s' = apples s /\
  applesHit s' = applesHit s /\
  score s' = score s /\
  hasUsedContinue s' = true.
Proof.
  intros G U. cbn [handle]. rewrite G, U. cbn. repeat split.
Qed.

Lemma hasUsedContinue_landed h ks aps bl b s :
  hasUsedContinue (landed h ks aps bl b s) = hasUsedContinue s.
Proof.
  unfold landed. destruct (collides ks h); [reflexivity|].
  cbv zeta. destruct (0 <? _)%Z; destruct (_ <=? _)%Z; reflexivity.
Qed.

Lemma hasUsedContinue_initGame (rnd : Q) (stageNum : Z) (s : State) :
  let t := initGame rnd stageNum s in
  hasUsedContinue t = hasUsedContinue s \/
  (gameState t = playing /\ stuckKnives t = [] /\ applesHit t = 0%Z).
Proof.
  unfold initGame. destruct (getBossForStage stageNum); [now left|right].
  repeat split.
Qed.

(** C3, as the code has it.  With [hasUsedContinue] set the screen
    shows no continue button, so a press of it changes nothing.  The
    flag is set by every continue and stays set whatever happens,
    until a round is initialised afresh: continue is taken at most
    once per round. *)
Theorem continue_gated_by_render (s : State) :
  hasUsedContinue s = true ->
  handle PressContinue s = s /\
  hasUsedContinue (watchAdContinue s) = true /\
  forall e,
    let t := handle e s in
    hasUsedContinue t = true \/
    (gameState t = playing /\ stuckKnives t = [] /\ applesHit t = 0%Z).
Proof.
  intros U. split; [|split; [reflexivity|]].
  - cbn [handle]. now rewrite U, andb_false_r.
  - intros e t. unfold t.
    destruct e; cbn [handle];
      try (destruct (GameState_eqb _ _); [|now left]).
    + unfold frame. destruct (GameState_eqb _ _); now left.
    + unfold throwKnife. destruct (_ || _); now left.
    + left. unfold fire.
      destruct (nth_error _ _) as [[h ks aps bl b|bl b]|]; cbn [runCallback];
        trivial.
      now rewrite hasUsedContinue_landed.
    + destruct (showDailyReward s); now left.
    + destruct (hasUsedContinue_initGame rnd 1%Z s) as [E|E];
        [left; now rewrite E | now right].
    + unfold startBossLevel. destruct (currentBoss s); [right|now left].
      repeat split.
    + destruct (_ && _); now left.
    + unfold restartGame.
      match goal with |- context [initGame rnd 1%Z ?x] =>
        destruct (hasUsedContinue_initGame rnd 1%Z x) as [E|E] end;
        [left; now rewrite E | now right].
    + unfold nextStage.
      match goal with |- context [initGame rnd ?n ?x] =>
        destruct (hasUsedContinue_initGame rnd n x) as [E|E] end;
        [left; now rewrite E | now right].
    + unfold watchAdDouble, nextStage.
      match goal with |- context [initGame rnd ?n ?x] =>
        destruct (hasUsedContinue_initGame rnd n x) as [E|E] end;
        [left; now rewrite E | now right].
Qed.

(** ** A throw that collides *)

Lemma frame_in_flight (p : list Callback) (s : State) :
  frame (s |> setIsThrowing true |> setPending p)
  = (frame s |> setIsThrowing true |> setPending p).
Proof.
  unfold frame. cbn. destruct (GameState_eqb (gameState s) playing); reflexivity.
Qed.

Lemma frames_in_flight (m : nat) (p : list Callback) (s : State) :
  Nat.iter m frame (s |> setIsThrowing true |> setPending p)
  = (Nat.iter m frame s |> setIsThrowing true |> setPending p).
Proof.
  induction m as [|m IH]; [reflexivity|].
  now rewrite !Nat.iter_succ, IH, frame_in_flight.
Qed.

(** A frame changes the rotation and nothing else. *)
Lemma frame_only_rotation (s : State) :
  frame s = setRotation (rotation (frame s)) s.
Proof.
  unfold frame. destruct (GameState_eqb _ _); now destruct s.
Qed.

Lemma frames_only_rotation (m : nat) (s : State) :
  Nat.iter m frame s = setRotation (rotation (Nat.iter m frame s)) s.
Proof.
  induction m as [|m IH].
  - now destruct s.
  - rewrite !Nat.iter_succ, frame_only_rotation. rewrite IH at 2. reflexivity.
Qed.

(** The resolution of a throw against a ledger it collides with. *)
Lemma landed_collision h ks aps bl b s :
  (exists k, In k ks /\ angularDistance k h < COLLISION_GAP) ->
  landed h ks aps bl b s = (s |> setGameState failed |> setIsThrowing false).
Proof.
  intros C. apply collides_true in C. unfold landed. now rewrite C.
Qed.

Lemma removeNth_last {A : Type} (l : list A) (x : A) :
  removeNth (length l) (l ++ [x]) = l.
Proof. induction l as [|y l IH]; cbn; [reflexivity | now rewrite IH]. Qed.

Lemma nth_error_last {A : Type} (l : list A) (x : A) :
  nth_error (l ++ [x]) (length l) = Some x.
Proof. rewrite nth_error_app2 by lia. now rewrite Nat.sub_diag. Qed.

(** C4.  A throw accepted in a playing state, whose hit angle is
    closer than 18 to a stuck knife, resolves (after any number of
    frames of flight) into the state the frames alone would have
    given, with the phase set to failed: the angle is not in the
    ledger, and the knives left, score, apple count, apples and coins
    are as before. *)
Theorem failed_throw_changes_phase_only (s : State) (m : nat) :
  gameState s = playing ->
  isThrowing s = false ->
  (0 < knivesLeft s)%Z ->
  (exists k, In k (stuckKnives s) /\
             angularDistance k (hitAngleOf (rotation s)) < COLLISION_GAP) ->
  let s' := fire (length (pending s)) (Nat.iter m frame (handle Tap s)) in
  s' = setGameState failed (Nat.iter m frame s) /\
  gameState s' = failed /\
  stuckKnives s' = stuckKnives s /\
  knivesLeft s' = knivesLeft s /\
  score s' = score s /\
  applesHit s' = applesHit s /\
  apples s' = apples s /\
  coins s' = coins s.
Proof.
  intros G T K C s'.
  assert (E : s' = setGameState failed (Nat.iter m frame s)).
  { unfold s'. cbn [handle]. rewrite G. cbn [GameState_eqb].
    unfold throwKnife. rewrite G, T.
    destruct (Z.leb_spec (knivesLeft s) 0) as [L|_]; [lia|].
    cbn [GameState_eqb negb orb].
    rewrite frames_in_flight. unfold fire.
    cbn [pending setPending setIsThrowing].
    rewrite nth_error_last, removeNth_last. cbn [runCallback].
    rewrite landed_collision by exact C.
    rewrite (frames_only_rotation m s).
    destruct s; cbn in *. subst. reflexivity. }
  rewrite E. rewrite (frames_only_rotation m s). repeat split.
Qed.

(** ** The double reward *)

(** C10.  On the win screen the double-reward button credits the
    stage reward once more (the boss's on a boss round, else 50) to
    the coins, leaves the score as it is, and moves to the next
    stage. *)
Theorem watchAdDouble_credits_coins_only (rnd : Q) (s : State) :
  gameState s = win ->
  let s' := step (PressDouble rnd) s in
  handle (PressDouble rnd) s = watchAdDouble rnd s /\
  coins s' = (coins s + stageReward s)%Z /\
  score s' = score s /\
  stage s' = (stage s + 1)%Z.
Proof.
  intros G. unfold step. cbn [handle]. rewrite G. cbn [GameState_eqb].
  unfold recordHighScore, watchAdDouble, nextStage, initGame, stageReward.
  destruct (getBossForStage _);
    match goal with |- context [if ?c then _ else _] => destruct c end;
    repeat split.
Qed.

(** ** The daily reward *)

Lemma dailyFields_landed h ks aps bl b s :
  dailyFields (landed h ks aps bl b s) = dailyFields s.
Proof.
  unfold landed. destruct (collides ks h); [reflexivity|].
  cbv zeta. destruct (0 <? _)%Z; destruct (_ <=? _)%Z; reflexivity.
Qed.

Lemma dailyFields_initGame (rnd : Q) (stageNum : Z) (s : State) :
  dailyFields (initGame rnd stageNum s) = dailyFields s.
Proof. unfold initGame. now destruct (getBossForStage stageNum). Qed.

(** Only the claim touches the reward dialog, and it closes it. *)
Lemma dailyFields_handle (e : Event) (s : State) :
  dailyFields (handle e s) = dailyFields s \/
  showDailyReward (handle e s) = false.
Proof.
  destruct e; cbn [handle];
    try (destruct (GameState_eqb _ _); [|now left]).
  - unfold frame. destruct (GameState_eqb _ _); now left.
  - unfold throwKnife. destruct (_ || _); now left.
  - unfold fire. destruct (nth_error _ _) as [[h ks aps bl b|bl b]|];
      cbn [runCallback]; left; trivial.
    now rewrite dailyFields_landed.
  - destruct (showDailyReward s) eqn:E; [now right | now left].
  - left. apply dailyFields_initGame.
  - unfold startBossLevel. destruct (currentBoss s); now left.
  - destruct (_ && _); now left.
  - left. unfold restartGame. now rewrite dailyFields_initGame.
  - left. unfold nextStage. now rewrite dailyFields_initGame.
  - left. unfold watchAdDouble, nextStage. now rewrite dailyFields_initGame.
Qed.

Lemma dailyInv_fields (s s' : State) :
  dailyFields s' = dailyFields s -> dailyInv s -> dailyInv s'.
Proof.
  unfold dailyFields, dailyInv. intros E. injection E as -> -> ->. trivial.
Qed.

Lemma dailyInv_step (e : Event) (s : State) : dailyInv s -> dailyInv (step e s).
Proof.
  intros I.
  assert (H : dailyInv (handle e s)).
  { destruct (dailyFields_handle e s) as [E|E].
    - now apply dailyInv_fields with s.
    - unfold dailyInv. rewrite E. discriminate. }
  unfold step, recordHighScore. destruct (_ <? _)%Z; exact H.
Qed.

Lemma reachable_dailyInv (s : State) : reachable s -> dailyInv s.
Proof.
  induction 1 as [sv s L|e s R IH V]; [|now apply dailyInv_step].
  unfold loadSavedData in L. destruct (rewardIsDue sv).
  - destruct (dailyRewardAt _) as [r|] eqn:E; [|discriminate].
    injection L as <-. intros _. exact E.
  - injection L as <-. intros D. discriminate.
Qed.

(** C7.  When the reward dialog is up in a reachable state with
    streak day [d] from 1 to 7, the claim credits entry
    [(d - 1) mod 7] of the table 50, 100, 150, 200, 300, 500, 1000 and
    moves the streak day to [(d mod 7) + 1]; from day 7 that is day 1. *)
Theorem claimDailyReward_streak (s : State) (d : Z) :
  reachable s ->
  showDailyReward s = true ->
  rewardDay s = d ->
  (1 <= d <= 7)%Z ->
  let s' := handle PressClaim s in
  s' = claimDailyReward s /\
  DAILY_REWARDS = [50; 100; 150; 200; 300; 500; 1000]%Z /\
  (exists reward,
      nth_error DAILY_REWARDS (Z.to_nat ((d - 1) mod 7)) = Some reward /\
      coins s' = (coins s + reward)%Z) /\
  rewardDay s' = (d mod 7 + 1)%Z /\
  (d = 7%Z -> rewardDay s' = 1%Z).
Proof.
  intros R Sh D Hd s'.
  pose proof (reachable_dailyInv s R Sh) as I. rewrite D in I.
  unfold s'. cbn [handle]. rewrite Sh.
  split; [reflexivity|]. split; [reflexivity|].
  change (Z.of_nat (length DAILY_REWARDS)) with 7%Z in I.
  rewrite Z.rem_mod_nonneg in I by lia.
  unfold dailyRewardAt in I.
  destruct (Z.ltb_spec ((d - 1) mod 7) 0) as [L|_];
    [pose proof (Z.mod_pos_bound (d - 1) 7); lia|].
  split; [|split].
  - exists (dailyRewardAmount s). split; [exact I|reflexivity].
  - unfold claimDailyReward. proj. rewrite D.
    change (Z.of_nat (length DAILY_REWARDS)) with 7%Z.
    now rewrite Z.rem_mod_nonneg by lia.
  - intros ->. unfold claimDailyReward. proj. now rewrite D.
Qed.

(** ** Following a run on the handlers *)

Lemma recordHighScore_same (s : State) : sameButHighScore (recordHighScore s) s.
Proof. unfold sameButHighScore, recordHighScore. now destruct (_ <? _)%Z. Qed.

Lemma sameButHighScore_inv (s t : State) :
  sameButHighScore s t -> exists hs, s = setHighScore hs t.
Proof.
  unfold sameButHighScore. intros H. exists (highScore s).
  destruct s, t; cbn in *. now inversion H.
Qed.

Lemma landed_setHighScore hs h ks aps bl b s :
  landed h ks aps bl b (setHighScore hs s)
  = setHighScore hs (landed h ks aps bl b s).
Proof.
  unfold landed. destruct (collides ks h); [reflexivity|].
  cbv zeta. destruct (0 <? _)%Z; destruct (_ <=? _)%Z; reflexivity.
Qed.

Lemma initGame_setHighScore hs rnd stageNum s :
  initGame rnd stageNum (setHighScore hs s)
  = setHighScore hs (initGame rnd stageNum s).
Proof. unfold initGame. now destruct (getBossForStage stageNum). Qed.

(** The handlers commute with a write of the high score. *)
Lemma handle_setHighScore (hs : Z) (e : Event) (s : State) :
  handle e (setHighScore hs s) = setHighScore hs (handle e s).
Proof.
  destruct e; cbn [handle]; cbn [gameState showDailyReward hasUsedContinue setHighScore];
    try (destruct (GameState_eqb _ _); [|reflexivity]).
  - unfold frame. cbn [gameState setHighScore].
    destruct (GameState_eqb _ _); reflexivity.
  - unfold throwKnife. cbn [gameState knivesLeft isThrowing setHighScore].
    destruct (_ || _); reflexivity.
  - unfold fire. cbn [pending setHighScore].
    destruct (nth_error _ _) as [[h ks aps bl b|bl b]|];
      cbn [runCallback]; try reflexivity.
    apply (landed_setHighScore hs h ks aps bl b
             (setPending (removeNth i (pending s)) s)).
  - destruct (showDailyReward s); reflexivity.
  - apply initGame_setHighScore.
  - unfold startBossLevel. cbn [currentBoss setHighScore].
    destruct (currentBoss s); reflexivity.
  - destruct (_ && _); reflexivity.
  - unfold restartGame.
    apply (initGame_setHighScore hs rnd 1%Z
             (s |> setScore 0%Z |> setStage 1%Z |> setIsBossLevel false
                |> setCurrentBoss None)).
  - unfold nextStage.
    apply (initGame_setHighScore hs rnd (stage s + 1)%Z
             (setStage (stage s + 1)%Z s)).
  - unfold watchAdDouble, nextStage.
    apply (initGame_setHighScore hs rnd (stage s + 1)%Z
             (s |> modCoins (fun c => c + bossOr (isBossLevel s) (currentBoss s)
                                            boss_reward 50)%Z
                |> setStage (stage s + 1)%Z)).
Qed.

Lemma step_sameButHighScore (e : Event) (s t : State) :
  sameButHighScore s t -> sameButHighScore (step e s) (handle e t).
Proof.
  intros H. apply sameButHighScore_inv in H. destruct H as [hs ->].
  unfold step. pose proof (recordHighScore_same (handle e (setHighScore hs t))) as R.
  unfold sameButHighScore in *. rewrite R, handle_setHighScore. reflexivity.
Qed.

Lemma run_sameButHighScore (es : list Event) (s t : State) :
  sameButHighScore s t -> sameButHighScore (run es s) (handleRun es t).
Proof.
  revert s t. induction es as [|e es IH]; intros s t H; cbn; trivial.
  apply IH. now apply step_sameButHighScore.
Qed.


(** ** A clean round *)

Lemma handleRun_app (es fs : list Event) (s : State) :
  handleRun (es ++ fs) s = handleRun fs (handleRun es s).
Proof. apply fold_left_app. Qed.

Lemma handleRun_frames (k : nat) (s : State) :
  handleRun (repeat Frame k) s = Nat.iter k frame s.
Proof.
  revert s. induction k as [|k IH]; intros s; [reflexivity|].
  cbn [repeat handleRun fold_left handle]. fold (handleRun (repeat Frame k) (frame s)).
  rewrite IH. symmetry. apply Nat.iter_succ_r.
Qed.

(** While the round is being played, [k] frames turn the board by
    [spin] and change nothing else. *)
Lemma frames_spin (k : nat) (s : State) :
  gameState s = playing ->
  Nat.iter k frame s = setRotation (spin (rotationSpeed s) k (rotation s)) s.
Proof.
  intros G. induction k as [|k IH].
  - now destruct s.
  - rewrite Nat.iter_succ, IH. unfold frame, spin.
    cbn [gameState setRotation]. rewrite G. cbn [GameState_eqb].
    rewrite Nat.iter_succ. reflexivity.
Qed.




(** A tap that the guard of [throwKnife] lets through. *)
Lemma tap_accepted (s : State) :
  gameState s = playing ->
  isThrowing s = false ->
  (0 < knivesLeft s)%Z ->
  handle Tap s
  = (s |> setIsThrowing true
       |> setPending (pending s ++
            [Landing (hitAngleOf (rotation s)) (stuckKnives s) (apples s)
                     (isBossLevel s) (currentBoss s)])).
Proof.
  intros G T K. cbn [handle]. unfold throwKnife. rewrite G, T.
  destruct (Z.leb_spec (knivesLeft s) 0); [lia|reflexivity].
Qed.

(** A throw from a quiet playing state, followed to its landing. *)
Lemma throw_to_landing (k m : nat) (s : State) :
  gameState s = playing ->
  isThrowing s = false ->
  (0 < knivesLeft s)%Z ->
  pending s = [] ->
  let v := rotationSpeed s in
  let r1 := spin v k (rotation s) in
  handleRun (repeat Frame k ++ Tap :: repeat Frame m ++ [Fire 0]) s
  = landed (hitAngleOf r1) (stuckKnives s) (apples s)
           (isBossLevel s) (currentBoss s)
           (s |> setRotation (spin v m r1) |> setIsThrowing true).
Proof.
  intros G T K P v r1.
  rewrite handleRun_app, handleRun_frames, (frames_spin k s G).
  fold v. fold r1.
  change (handleRun (Tap :: repeat Frame m ++ [Fire 0]) (setRotation r1 s))
    with (handleRun (repeat Frame m ++ [Fire 0]) (handle Tap (setRotation r1 s))).
  rewrite tap_accepted by assumption.
  rewrite handleRun_app, handleRun_frames, frames_spin by exact G.
  cbn [handleRun fold_left handle]. unfold fire.
  cbn [pending setPending setIsThrowing setRotation]. rewrite P.
  cbn [app nth_error removeNth runCallback].
  cbn [rotation stuckKnives apples isBossLevel currentBoss setRotation].
  replace (rotationSpeed _) with v by reflexivity.
  destruct s; cbn in *; subst. reflexivity.
Qed.







(** ** Deciding the conditions, and reaching states by runs *)



Lemma validEventb_sound (e : Event) : validEventb e = true -> validEvent e.
Proof.
  destruct e; cbn; trivial; intros H; apply andb_true_iff in H;
    destruct H as [H1 H2]; (split; [now apply Qle_bool_iff | now apply Qltb_lt]).
Qed.

Lemma reachable_run (es : list Event) (s : State) :
  reachable s -> forallb validEventb es = true -> reachable (run es s).
Proof.
  revert s. induction es as [|e es IH]; intros s R V; cbn; trivial.
  cbn [forallb] in V. apply andb_true_iff in V. destruct V as [V1 V2].
  apply IH; trivial. apply reach_step; trivial. now apply validEventb_sound.
Qed.

Lemma reachable_bootOf (sv : Saved) (s : State) :
  loadSavedData sv mountState = Some s -> reachable (bootOf sv).
Proof.
  intros H. unfold bootOf. rewrite H. now apply reach_boot with sv.
Qed.

Lemma reachable_fresh : reachable (bootOf freshInstall).
Proof. now apply reachable_bootOf with (bootOf freshInstall). Qed.

(** ** Without an overlapping tap, a win has exactly the budget *)

Lemma BOSSES_knives (b : BossData) : In b BOSSES -> (12 <= boss_knives b)%Z.
Proof.
  cbn. intros H.
  repeat (destruct H as [<-|H]; [cbn; lia|]). contradiction.
Qed.

Lemma knifeBudget_stage (s : State) :
  bossConsistent s -> knifeBudget s = stageBudget (stage s).
Proof.
  intros [C L]. unfold knifeBudget, stageBudget, bossOr.
  rewrite <- C. destruct (currentBoss s); [now rewrite L | reflexivity].
Qed.

Lemma knifeBudget_pos (s : State) : bossConsistent s -> (0 < knifeBudget s)%Z.
Proof.
  intros [C L]. unfold knifeBudget, bossOr.
  destruct (currentBoss s) as [b|] eqn:E; [|unfold BASE_KNIVES; lia].
  rewrite L. symmetry in C. apply getBossForStage_In in C.
  destruct C as [C _]. apply BOSSES_knives in C. lia.
Qed.

Lemma quietInv_same (s t : State) :
  sameButHighScore s t -> quietInv t -> quietInv s.
Proof.
  intros H. apply sameButHighScore_inv in H. destruct H as [hs ->]. trivial.
Qed.

Lemma quietInv_initGame (rnd : Q) (stageNum : Z) (s : State) :
  stage s = stageNum -> pending s = [] -> isThrowing s = false ->
  quietInv (initGame rnd stageNum s).
Proof.
  intros St P T. unfold initGame.
  destruct (getBossForStage stageNum) as [b|] eqn:E.
  - repeat split; proj; try assumption; try congruence; try discriminate.
    intros [H|H]; discriminate.
  - repeat split; proj; try assumption; try congruence; try discriminate.
Qed.

Lemma quietInv_startBossLevel (rnd : Q) (s : State) :
  quietInv s -> quietInv (startBossLevel rnd s).
Proof.
  intros I. unfold startBossLevel.
  destruct (currentBoss s) as [b|] eqn:E; [|exact I].
  destruct I as (P & T & B & R & W & L).
  pose proof (knifeBudget_pos s B) as K.
  destruct B as [C Lv].
  repeat split; proj; try assumption; try discriminate.
  intros _. exact K.
Qed.

(** What a landing without collision leaves in the fields that the
    invariant reads. *)
Lemma landed_clean_view h ks aps bl b s :
  collides ks h = false ->
  let t := landed h ks aps bl b s in
  stuckKnives t = ks ++ [h] /\
  gameState t = gameState s /\
  isThrowing t = false /\
  stage t = stage s /\
  currentBoss t = currentBoss s /\
  isBossLevel t = isBossLevel s /\
  pending t =
    pending s ++
    (if (bossOr bl b boss_knives BASE_KNIVES <=? Z.of_nat (length (ks ++ [h])))%Z
     then [WinTimer bl b] else []).
Proof.
  intros C. unfold landed. rewrite C. cbv zeta.
  destruct (0 <? _)%Z; destruct (_ <=? _)%Z; proj;
    rewrite ?app_nil_r; repeat split.
Qed.

(** A landing in a quiet playing state, followed by the win timer it
    may start. *)
Lemma quietInv_landing (h : Q) (r : Q) (s : State) :
  quietInv s ->
  gameState s = playing ->
  quietInv (handle (Fire 0)
              (landed h (stuckKnives s) (apples s) (isBossLevel s) (currentBoss s)
                      (s |> setRotation r |> setIsThrowing true))).
Proof.
  intros (P & T & B & R & W & L) G.
  assert (Lt : (Z.of_nat (length (stuckKnives s)) < knifeBudget s)%Z)
    by (apply L; now left).
  destruct (collides (stuckKnives s) h) eqn:C.
  - unfold landed. rewrite C. cbn [handle]. unfold fire.
    cbn [pending setGameState setIsThrowing setRotation].
    rewrite P. cbn [nth_error].
    split; [exact P|]. split; [reflexivity|]. split; [exact B|].
    split; [discriminate|]. split; [discriminate|].
    intros _. exact Lt.
  - pose proof (landed_clean_view h (stuckKnives s) (apples s) (isBossLevel s)
                  (currentBoss s) (s |> setRotation r |> setIsThrowing true) C)
      as V.
    cbv zeta in V.
    set (t := landed h (stuckKnives s) (apples s) (isBossLevel s) (currentBoss s)
                (s |> setRotation r |> setIsThrowing true)) in *.
    destruct V as (K1 & G1 & T1 & St1 & Cb1 & Bl1 & Pe1).
    cbn [pending gameState stage currentBoss isBossLevel setIsThrowing
         setRotation] in G1, St1, Cb1, Bl1, Pe1.
    rewrite P in Pe1. cbn [app] in Pe1. fold (knifeBudget s) in Pe1.
    rewrite length_app, Nat2Z.inj_add in Pe1. cbn [length] in Pe1.
    change (Z.of_nat 1) with 1%Z in Pe1.
    assert (Len : Z.of_nat (length (stuckKnives t))
                  = (Z.of_nat (length (stuckKnives s)) + 1)%Z).
    { rewrite K1, length_app, Nat2Z.inj_add. reflexivity. }
    assert (Bt : bossConsistent t).
    { unfold bossConsistent. rewrite Cb1, Bl1, St1. exact B. }
    assert (Kt : knifeBudget t = knifeBudget s).
    { unfold knifeBudget. now rewrite Cb1, Bl1. }
    cbn [handle]. unfold fire.
    destruct (Z.leb_spec (knifeBudget s) (Z.of_nat (length (stuckKnives s)) + 1))
      as [X|X]; rewrite Pe1; cbn [nth_error removeNth runCallback].
    + unfold winTimeout.
      split; [reflexivity|]. split; [exact T1|]. split; [exact Bt|].
      split; [discriminate|]. split.
      * intros _. split.
        -- change (Z.of_nat (length (stuckKnives t)) = knifeBudget t).
           rewrite Len, Kt. lia.
        -- change (lastKnifeClean (stuckKnives t)). rewrite K1.
           exists (stuckKnives s), h. now split.
      * intros [H|H]; discriminate.
    + split; [exact Pe1|]. split; [exact T1|]. split; [exact Bt|].
      rewrite G1, G.
      split; [discriminate|]. split; [discriminate|].
      intros _. rewrite Len, Kt. exact X.
Qed.

Lemma tap_refused (s : State) :
  isThrowing s = false ->
  ~ (gameState s = playing /\ (0 < knivesLeft s)%Z) ->
  handle Tap s = s.
Proof.
  intros T N. cbn [handle]. unfold throwKnife.
  destruct (gameState s) eqn:G; cbn [GameState_eqb negb orb]; trivial.
  destruct (Z.leb_spec (knivesLeft s) 0) as [L|L]; trivial.
  exfalso. apply N. now split.
Qed.

Lemma fire_nothing (i : nat) (s : State) : pending s = [] -> fire i s = s.
Proof. intros P. unfold fire. rewrite P. now destruct i. Qed.

Lemma quietInv_throw (m : nat) (s : State) :
  quietInv s -> quietInv (handleRun (eventsOf (AThrow m)) s).
Proof.
  intros I. cbn [eventsOf]. rewrite handleRun_app.
  change (handleRun [Fire 0] ?x) with (handle (Fire 0) x).
  assert (P : pending s = []) by apply I.
  assert (T : isThrowing s = false) by apply I.
  assert (Refused : handle Tap s = s ->
            quietInv (handle (Fire 0)
                        (handleRun (Tap :: repeat Frame m ++ [Fire 0]) s))).
  { intros E. cbn [handleRun fold_left]. rewrite E.
    fold (handleRun (repeat Frame m ++ [Fire 0]) s).
    rewrite handleRun_app, handleRun_frames, (frames_only_rotation m s).
    cbn [handleRun fold_left handle].
    rewrite !(fire_nothing 0 (setRotation _ s)) by exact P. exact I. }
  destruct (gameState s) eqn:G;
    try (apply Refused, tap_refused; [exact T | intros [X _]; congruence]).
  destruct (Z.ltb_spec 0 (knivesLeft s)) as [K|K].
  - pose proof (throw_to_landing 0 m s G T K P) as E. cbv zeta in E.
    cbn [repeat app] in E. rewrite E.
    apply quietInv_landing; [exact I | exact G].
  - apply Refused, tap_refused; [exact T | intros [_ X]; lia].
Qed.

Lemma quietInv_act (a : Action) (s : State) :
  quietInv s -> quietInv (handleRun (eventsOf a) s).
Proof.
  intros I. destruct a; try apply quietInv_throw; trivial;
    cbn [eventsOf handleRun fold_left handle].
  - unfold frame. destruct (GameState_eqb _ _); exact I.
  - destruct (showDailyReward s); exact I.
  - destruct (gameState s) eqn:G; cbn [GameState_eqb]; try exact I.
    destruct I as (P & T & B & R & W & L). apply quietInv_initGame; auto.
  - destruct (GameState_eqb _ _); trivial. now apply quietInv_startBossLevel.
  - destruct (gameState s) eqn:G; cbn [GameState_eqb andb]; try exact I.
    destruct (hasUsedContinue s); cbn [negb]; [exact I|].
    destruct I as (P & T & B & R & W & L).
    split; [exact P|]. split; [exact T|]. split; [exact B|].
    split; [discriminate|]. split; [discriminate|].
    intros _. apply L. now right.
  - destruct (GameState_eqb _ _); trivial.
    unfold restartGame. apply quietInv_initGame; trivial; apply I.
  - destruct (GameState_eqb _ _); trivial.
    unfold nextStage. apply quietInv_initGame; trivial; apply I.
  - destruct (GameState_eqb _ _); trivial.
    unfold watchAdDouble, nextStage. apply quietInv_initGame; trivial; apply I.
Qed.

Lemma quietReachable_quietInv (s : State) : quietReachable s -> quietInv s.
Proof.
  induction 1 as [sv s L|a s R IH].
  - unfold loadSavedData in L.
    destruct (rewardIsDue sv); [destruct (dailyRewardAt _)|];
      try discriminate; injection L as <-;
      (repeat split; try reflexivity; try discriminate;
       intros [H|H]; discriminate).
  - apply quietInv_same with (handleRun (eventsOf a) s).
    + apply run_sameButHighScore. reflexivity.
    + now apply quietInv_act.
Qed.

(** X17.  When every callback has run before the next tap or press,
    the phase is win only with as many stuck knives as the budget of the
    stage, the last of them clear of the others. *)
Theorem quiet_win_has_budget (s : State) :
  quietReachable s ->
  gameState s = win ->
  Z.of_nat (length (stuckKnives s)) = stageBudget (stage s) /\
  lastKnifeClean (stuckKnives s).
Proof.
  intros R G. apply quietReachable_quietInv in R.
  destruct R as (P & T & B & _ & W & _).
  destruct (W G) as [W1 W2]. split; trivial.
  now rewrite <- knifeBudget_stage.
Qed.

(** ** The examples *)

Lemma failedOnce_run : failedOnce = run firstFailure (bootOf freshInstall).
Proof. vm_compute. reflexivity. Qed.

Lemma failedTwice_run : failedTwice = run secondFailure (bootOf freshInstall).
Proof. vm_compute. reflexivity. Qed.


Lemma wonWithEleven_run :
  wonWithEleven = run tapBeforeWinTimer (bootOf freshInstall).
Proof. vm_compute. reflexivity. Qed.

Lemma reachable_failedOnce : reachable failedOnce.
Proof.
  rewrite failedOnce_run.
  apply reachable_run; [apply reachable_fresh | vm_compute; reflexivity].
Qed.

Lemma reachable_failedTwice : reachable failedTwice.
Proof.
  rewrite failedTwice_run.
  apply reachable_run; [apply reachable_fresh | vm_compute; reflexivity].
Qed.

Lemma reachable_wonWithEleven : reachable wonWithEleven.
Proof.
  rewrite wonWithEleven_run.
  apply reachable_run; [apply reachable_fresh | vm_compute; reflexivity].
Qed.

Lemma stuckKnives_separated_witness :
  Separated (stuckKnives wonWithEleven) /\
  forall i h ks aps bl b,
    nth_error (pending wonWithEleven) i = Some (Landing h ks aps bl b) ->
    let s' := fire i wonWithEleven in
    Separated (stuckKnives s') /\
    ((exists k, In k ks /\ angularDistance k h < COLLISION_GAP) ->
       gameState s' = failed /\ stuckKnives s' = stuckKnives wonWithEleven) /\
    ((forall k, In k ks -> COLLISION_GAP <= angularDistance k h) ->
       stuckKnives s' = ks ++ [h]).
Proof.
  exact (stuckKnives_separated wonWithEleven reachable_wonWithEleven).
Defined.

Lemma coins_never_decrease_witness :
  (forall e, coins (step e failedOnce) = coins failedOnce \/
             (coins failedOnce < coins (step e failedOnce))%Z) /\
  (forall es, (coins failedOnce <= coins (run es failedOnce))%Z).
Proof.
  exact (coins_never_decrease failedOnce reachable_failedOnce).
Defined.

Lemma watchAdContinue_restores_witness :
  knivesLeft failedOnce = 9%Z /\
  let s' := handle PressContinue failedOnce in
  s' = watchAdContinue failedOnce /\
  knivesLeft s' = 3%Z /\
  gameState s' = playing /\
  stuckKnives s' = stuckKnives failedOnce /\
  apples s' = apples failedOnce /\
  applesHit s' = applesHit failedOnce /\
  score s' = score failedOnce /\
  hasUsedContinue s' = true.
Proof.
  split; [reflexivity|].
  exact (watchAdContinue_restores failedOnce eq_refl eq_refl).
Defined.

Lemma continue_gated_by_render_witness :
  gameState failedTwice = failed /\
  handle PressContinue failedTwice = failedTwice /\
  hasUsedContinue (watchAdContinue failedTwice) = true /\
  forall e,
    let t := handle e failedTwice in
    hasUsedContinue t = true \/
    (gameState t = playing /\ stuckKnives t = [] /\ applesHit t = 0%Z).
Proof.
  split; [reflexivity|].
  exact (continue_gated_by_render failedTwice eq_refl).
Defined.

(** C3, as stated, fails on the function itself.  After the second
    failure of a round the continue is used and 2 knives are left; a
    call of [watchAdContinue] there is no no-op: it puts the round
    back into play with 3 knives. *)
Lemma watchAdContinue_itself_unguarded :
  reachable failedTwice /\
  hasUsedContinue failedTwice = true /\
  gameState failedTwice = failed /\
  knivesLeft failedTwice = 2%Z /\
  gameState (watchAdContinue failedTwice) = playing /\
  knivesLeft (watchAdContinue failedTwice) = 3%Z /\
  watchAdContinue failedTwice <> failedTwice.
Proof.
  split; [exact reachable_failedTwice|].
  repeat (split; [reflexivity|]).
  intros E. apply (f_equal gameState) in E. discriminate E.
Qed.

Lemma failed_throw_changes_phase_only_witness :
  stuckKnives oneKnifeIn = [180] /\
  let s' := fire (length (pending oneKnifeIn))
                 (Nat.iter 6 frame (handle Tap oneKnifeIn)) in
  s' = setGameState failed (Nat.iter 6 frame oneKnifeIn) /\
  gameState s' = failed /\
  stuckKnives s' = stuckKnives oneKnifeIn /\
  knivesLeft s' = knivesLeft oneKnifeIn /\
  score s' = score oneKnifeIn /\
  applesHit s' = applesHit oneKnifeIn /\
  apples s' = apples oneKnifeIn /\
  coins s' = coins oneKnifeIn.
Proof.
  split; [reflexivity|].
  apply (failed_throw_changes_phase_only oneKnifeIn 6);
    try reflexivity.
  exists 180. split; [now left | vm_compute; reflexivity].
Defined.

Lemma watchAdDouble_credits_coins_only_witness :
  gameState cleanWin = win /\
  stageReward cleanWin = 50%Z /\
  let s' := step (PressDouble 0) cleanWin in
  handle (PressDouble 0) cleanWin = watchAdDouble 0 cleanWin /\
  coins s' = (coins cleanWin + stageReward cleanWin)%Z /\
  score s' = score cleanWin /\
  stage s' = (stage cleanWin + 1)%Z.
Proof.
  split; [reflexivity|]. split; [reflexivity|].
  exact (watchAdDouble_credits_coins_only 0 cleanWin eq_refl).
Defined.

Lemma claimDailyReward_streak_witness :
  showDailyReward (bootOf seventhDay) = true /\
  let s' := handle PressClaim (bootOf seventhDay) in
  s' = claimDailyReward (bootOf seventhDay) /\
  DAILY_REWARDS = [50; 100; 150; 200; 300; 500; 1000]%Z /\
  (exists reward,
      nth_error DAILY_REWARDS (Z.to_nat ((7 - 1) mod 7)) = Some reward /\
      coins s' = (coins (bootOf seventhDay) + reward)%Z) /\
  rewardDay s' = (7 mod 7 + 1)%Z /\
  (7%Z = 7%Z -> rewardDay s' = 1%Z).
Proof.
  split; [reflexivity|].
  apply (claimDailyReward_streak (bootOf seventhDay) 7).
  - now apply reachable_bootOf with (bootOf seventhDay).
  - reflexivity.
  - reflexivity.
  - lia.
Defined.


(** ** A tap before the win timer *)

(** C2 does not hold of the component.  In the session
    [tapBeforeWinTimer] the tenth knife of a continued round starts
    the win timer with 2 knives left; a tap before the timer is due
    is accepted, the timer sets the phase to win, and the knife then
    lands as an eleventh in the ledger of a stage whose budget is 10.
    The timer that this landing starts pays the stage reward a second
    time. *)
Theorem win_with_eleven_knives :
  wonWithEleven = run tapBeforeWinTimer (bootOf freshInstall) /\
  reachable wonWithEleven /\
  gameState wonWithEleven = win /\
  stage wonWithEleven = 1%Z /\
  stageBudget (stage wonWithEleven) = 10%Z /\
  length (stuckKnives wonWithEleven) = 11%nat /\
  pending wonWithEleven = [WinTimer false None] /\
  score (step (Fire 0) wonWithEleven) = (score wonWithEleven + 50)%Z /\
  coins (step (Fire 0) wonWithEleven) = (coins wonWithEleven + 50)%Z.
Proof.
  split; [exact wonWithEleven_run|].
  split; [exact reachable_wonWithEleven|].
  repeat split.
Qed.

(** * Further properties of the component *)

(** Reduce the projections of updated states and nothing else. *)
Ltac fields :=
  cbn [rotation stuckKnives apples explosions knivesLeft gameState stage
       score applesHit isThrowing hasUsedContinue currentBoss isBossLevel
       coins highScore showDailyReward rewardDay dailyRewardAmount pending
       setRotation setStuckKnives setApples setExplosions setKnivesLeft
       setGameState setStage setScore setApplesHit setIsThrowing
       setHasUsedContinue setCurrentBoss setIsBossLevel setCoins
       setHighScore setShowDailyReward setRewardDay setDailyRewardAmount
       setPending modScore modCoins modApplesHit modKnivesLeft
       modExplosions].

(** ** The high score *)

Lemma highScore_handle (e : Event) (s : State) :
  highScore (handle e s) = highScore s.
Proof.
  replace s with (setHighScore (highScore s) (setHighScore 0%Z s)) at 1
    by now destruct s.
  now rewrite handle_setHighScore.
Qed.

Lemma highScore_step (e : Event) (s : State) :
  highScore (step e s) = Z.max (highScore s) (score (handle e s)) /\
  score (step e s) = score (handle e s).
Proof.
  unfold step, recordHighScore. rewrite <- (highScore_handle e s).
  destruct (Z.ltb_spec (highScore (handle e s)) (score (handle e s)));
    cbn; split; trivial; lia.
Qed.

Lemma highScore_run_mono (es : list Event) (s : State) :
  (highScore s <= highScore (run es s))%Z.
Proof.
  revert s. induction es as [|e es IH]; intros s; cbn; [lia|].
  etransitivity; [|apply IH].
  destruct (highScore_step e s) as [H _]. lia.
Qed.

(** X1.  The high score never goes down, and once an event has been
    handled it is at least the score; so it stays at least every score
    the session has shown since. *)
Theorem highScore_keeps_best (s : State) (e : Event) (es later : list Event) :
  (highScore s <= highScore (step e s))%Z /\
  (score (step e s) <= highScore (step e s))%Z /\
  (score (run (e :: es) s) <= highScore (run ((e :: es) ++ later) s))%Z.
Proof.
  destruct (highScore_step e s) as [H1 H2].
  split; [lia|]. split; [lia|].
  unfold run at 2. rewrite fold_left_app. fold (run (e :: es) s).
  fold (run later (run (e :: es) s)).
  etransitivity; [|apply highScore_run_mono].
  clear H1 H2. revert e s. induction es as [|e' es IH]; intros e s.
  - cbn. destruct (highScore_step e s) as [H1 H2]. lia.
  - change (run (e :: e' :: es) s) with (run (e' :: es) (step e s)). apply IH.
Qed.

(** ** Stages and bosses *)

Lemma stageInv_fields (s t : State) :
  stage t = stage s -> currentBoss t = currentBoss s ->
  isBossLevel t = isBossLevel s ->
  (gameState t = gameState s \/ gameState t = failed \/ gameState t = win
   \/ gameState t = playing) ->
  stageInv s -> stageInv t.
Proof.
  intros St Cb Bl G (S1 & [B1 B2] & I & R).
  unfold stageInv, bossConsistent. rewrite St, Cb, Bl.
  repeat split; trivial.
  - intros X. destruct G as [G|[G|[G|G]]]; rewrite G in X;
      [now apply I | discriminate..].
  - intros X. destruct G as [G|[G|[G|G]]]; rewrite G in X;
      [now apply R | discriminate..].
Qed.

Lemma stageInv_initGame (rnd : Q) (s : State) :
  (1 <= stage s)%Z -> stageInv (initGame rnd (stage s) s).
Proof.
  intros S1. unfold initGame.
  destruct (getBossForStage (stage s)) as [b|] eqn:E;
    repeat split; proj; trivial; try congruence; try discriminate.
Qed.

Lemma landed_stage_view h ks aps bl b s :
  let t := landed h ks aps bl b s in
  stage t = stage s /\ currentBoss t = currentBoss s /\
  isBossLevel t = isBossLevel s /\
  (gameState t = gameState s \/ gameState t = failed).
Proof.
  unfold landed. destruct (collides ks h); [repeat split; now right|].
  cbv zeta. destruct (0 <? _)%Z; destruct (_ <=? _)%Z; repeat split; now left.
Qed.

Lemma stageInv_handle (e : Event) (s : State) :
  stageInv s -> stageInv (handle e s).
Proof.
  intros I.
  destruct e; cbn [handle];
    try (destruct (GameState_eqb (gameState s) _) eqn:G; [|exact I]).
  - unfold frame. destruct (GameState_eqb _ _); exact I.
  - unfold throwKnife. destruct (_ || _); exact I.
  - unfold fire.
    destruct (nth_error _ _) as [[h ks aps bl b|bl b]|]; cbn [runCallback];
      [| |exact I].
    + destruct (landed_stage_view h ks aps bl b
                  (setPending (removeNth i (pending s)) s)) as (A & B & C & D).
      apply stageInv_fields with s; trivial.
      destruct D as [D|D]; [left | right; left]; exact D.
    + apply stageInv_fields with s; trivial. right. right. now left.
  - destruct (showDailyReward s); exact I.
  - destruct I as (S1 & B & In & R).
    destruct (gameState s) eqn:G'; try discriminate.
    rewrite <- (R eq_refl). apply stageInv_initGame. lia.
  - unfold startBossLevel. destruct (currentBoss s) eqn:E; [|exact I].
    apply stageInv_fields with s; trivial. right. right. now right.
  - destruct (hasUsedContinue s); cbn [andb negb]; [exact I|].
    apply stageInv_fields with s; trivial. right. right. now right.
  - unfold restartGame.
    apply (stageInv_initGame rnd
             (s |> setScore 0%Z |> setStage 1%Z |> setIsBossLevel false
                |> setCurrentBoss None)).
    cbn. lia.
  - unfold nextStage.
    apply (stageInv_initGame rnd (setStage (stage s + 1)%Z s)).
    cbn [stage setStage]. destruct I as (S1 & _). lia.
  - unfold watchAdDouble, nextStage.
    apply (stageInv_initGame rnd
             (s |> modCoins (fun c => c + bossOr (isBossLevel s) (currentBoss s)
                                            boss_reward 50)%Z
                |> setStage (stage s + 1)%Z)).
    cbn [stage setStage modCoins setCoins]. destruct I as (S1 & _). lia.
Qed.

Lemma reachable_stageInv (s : State) : reachable s -> stageInv s.
Proof.
  induction 1 as [sv s L|e s R IH V].
  - unfold loadSavedData in L.
    destruct (rewardIsDue sv); [destruct (dailyRewardAt _)|];
      try discriminate; injection L as <-;
      (repeat split; proj; try reflexivity; try lia; discriminate).
  - unfold step, recordHighScore.
    destruct (_ <? _)%Z; now apply stageInv_handle.
Qed.

(** The boss table is keyed by exactly five stages. *)
Lemma getBossForStage_None (n : Z) :
  getBossForStage n = None <-> ~ In n bossStages.
Proof.
  unfold getBossForStage, bossStages. cbn [find BOSSES boss_stage In].
  repeat match goal with
         | |- context [Z.eqb ?a n] => destruct (Z.eqb_spec a n)
         end; split; intros H; try discriminate; try reflexivity;
    try (exfalso; apply H; tauto); intuition lia.
Qed.

Lemma BOSSES_apples (b : BossData) : In b BOSSES -> (3 <= boss_apples b <= 8)%Z.
Proof.
  cbn. intros H.
  repeat (destruct H as [<-|H]; [cbn; lia|]). contradiction.
Qed.

Lemma BOSSES_speed (b : BossData) : In b BOSSES -> 2 <= boss_speed b <= 3.
Proof.
  cbn. intros H.
  repeat (destruct H as [<-|H]; [cbn; lra|]). contradiction.
Qed.


(** X3.  Whenever the boss introduction is up in a reachable state,
    its boss is there: the fight button starts the round with the
    boss's knives and apples, an empty ledger and the continue
    unused, and keeps score and coins. *)
Theorem fight_starts_boss_round (s : State) (rnd : Q) :
  reachable s ->
  gameState s = boss_intro ->
  exists b,
    getBossForStage (stage s) = Some b /\
    let t := handle (PressFight rnd) s in
    gameState t = playing /\
    knivesLeft t = boss_knives b /\
    knifeBudget t = boss_knives b /\
    stuckKnives t = [] /\
    length (apples t) = Z.to_nat (boss_apples b) /\
    applesHit t = 0%Z /\
    hasUsedContinue t = false /\
    isThrowing t = false /\
    rotation t = 0 /\
    score t = score s /\
    coins t = coins s.
Proof.
  intros R G. destruct (reachable_stageInv s R) as (S1 & [B1 B2] & I & _).
  specialize (I G). destruct (currentBoss s) as [b|] eqn:E; [|congruence].
  exists b. split; [now rewrite <- B1|].
  cbn [handle]. rewrite G. cbn [GameState_eqb].
  unfold startBossLevel, knifeBudget. rewrite E. proj. rewrite E, B2.
  repeat split.
  unfold generateApples, generateApplesAt.
  now rewrite !length_map, length_seq.
Qed.

(** X4.  From a win the next-stage button raises the stage by one and
    keeps the score.  On entering stage 5, 10, 15, 20 or 25 it shows
    the boss introduction and leaves the finished round in place;
    on any other stage it starts a round of 10 knives and 10 apples
    with an empty ledger and the continue unused. *)
Theorem nextStage_enters (s : State) (rnd : Q) :
  gameState s = win ->
  let t := handle (PressNext rnd) s in
  stage t = (stage s + 1)%Z /\
  score t = score s /\
  coins t = coins s /\
  (In (stage s + 1)%Z bossStages ->
     gameState t = boss_intro /\
     (exists b, currentBoss t = Some b /\ boss_stage b = (stage s + 1)%Z) /\
     isBossLevel t = true /\
     stuckKnives t = stuckKnives s /\
     knivesLeft t = knivesLeft s /\
     apples t = apples s) /\
  (~ In (stage s + 1)%Z bossStages ->
     gameState t = playing /\
     currentBoss t = None /\
     isBossLevel t = false /\
     knivesLeft t = 10%Z /\
     stuckKnives t = [] /\
     length (apples t) = 10%nat /\
     applesHit t = 0%Z /\
     hasUsedContinue t = false).
Proof.
  intros G. cbn [handle]. rewrite G. cbn [GameState_eqb].
  unfold nextStage, initGame. proj.
  destruct (getBossForStage (stage s + 1)) as [b|] eqn:E; proj.
  - split; [reflexivity|]. split; [reflexivity|]. split; [reflexivity|].
    split.
    + intros _. repeat split. exists b. split; trivial.
      now apply getBossForStage_In in E.
    + intros X. apply getBossForStage_None in X. congruence.
  - assert (N : ~ In (stage s + 1)%Z bossStages)
      by now apply getBossForStage_None.
    split; [reflexivity|]. split; [reflexivity|]. split; [reflexivity|].
    split; [contradiction|]. intros _. repeat split.
Qed.

(** ** Angles stay on the board *)

(** The remainder of a dividend that is not negative lies in
    [[0, m)]. *)
Lemma js_mod_range (x m : Q) : 0 <= x -> 0 < m -> 0 <= js_mod x m < m.
Proof.
  intros Hx Hm. unfold js_mod, Qtrunc.
  assert (D0 : 0 <= x / m) by (apply Qle_shift_div_l; trivial; lra).
  destruct (Qle_bool 0 (x / m)) eqn:E;
    [|apply Qle_bool_iff in D0; congruence].
  pose proof (Qfloor_le (x / m)) as F1.
  pose proof (Qlt_floor (x / m)) as F2.
  rewrite inject_Z_plus in F2. change (inject_Z 1) with 1 in F2.
  set (z := inject_Z (Qfloor (x / m))) in *.
  assert (X : x == (x / m) * m) by (field; lra).
  assert (L1 : z * m <= (x / m) * m) by (apply Qmult_le_compat_r; lra).
  assert (L2 : (x / m) * m < (z + 1) * m) by (apply Qmult_lt_compat_r; lra).
  rewrite <- X in L1, L2.
  assert (Y : (z + 1) * m == z * m + m) by ring.
  rewrite Y in L2. split; lra.
Qed.

Lemma hitAngleOf_range (rot : Q) : inRange rot -> inRange (hitAngleOf rot).
Proof.
  unfold inRange, hitAngleOf. intros R. apply js_mod_range; lra.
Qed.

Lemma generateApples_range (rnd : Q) (n : Z) :
  0 <= rnd < 1 -> Forall inRange (map apple_angle (generateApples rnd n)).
Proof.
  intros R. unfold generateApples, generateApplesAt.
  rewrite !map_map. apply Forall_forall. intros a Ha.
  apply in_map_iff in Ha. destruct Ha as [i [<- Hi]].
  apply in_seq in Hi. cbn [apple_angle].
  assert (Hn : (0 < n)%Z) by lia.
  pose proof (gap_pos n Hn) as G.
  pose proof (generateApples_offset rnd n Hn R) as O.
  apply js_mod_range; [|lra].
  assert (I0 : 0 <= inject_Z (Z.of_nat i)).
  { change 0 with (inject_Z 0). rewrite <- Zle_Qle. lia. }
  assert (P0 : 0 <= inject_Z (Z.of_nat i) * (360 / inject_Z n))
    by (apply Qmult_le_0_compat; lra).
  lra.
Qed.

Lemma markApples_angles (h : Q) (aps : list AppleData) :
  map apple_angle (markApples h aps) = map apple_angle aps.
Proof.
  unfold markApples. rewrite map_map. apply map_ext.
  intros a. now destruct (appleIsHit h a).
Qed.

Lemma rotationSpeed_pos (s : State) : stageInv s -> 0 < rotationSpeed s.
Proof.
  intros (S1 & [B1 B2] & _). unfold rotationSpeed, bossOr.
  assert (I0 : 0 <= inject_Z (stage s - 1)).
  { change 0 with (inject_Z 0). rewrite <- Zle_Qle. lia. }
  assert (P : 0 <= inject_Z (stage s - 1) * (1 # 10))
    by (apply Qmult_le_0_compat; lra).
  destruct (currentBoss s) as [b|] eqn:E; [|unfold ROTATION_SPEED; lra].
  destruct (isBossLevel s); [|unfold ROTATION_SPEED; lra].
  symmetry in B1. apply getBossForStage_In in B1. destruct B1 as [B1 _].
  apply BOSSES_speed in B1. lra.
Qed.

Lemma rangeInv_landed h ks aps bl b s :
  closureRange (Landing h ks aps bl b) -> rangeInv s ->
  rangeInv (landed h ks aps bl b s).
Proof.
  intros (H & K & A) (R & S & Ap & P). unfold landed.
  destruct (collides ks h); [repeat split; try apply R; assumption|].
  cbv zeta.
  destruct (0 <? _)%Z; destruct (_ <=? _)%Z; repeat split; proj;
    rewrite ?markApples_angles; try apply R; trivial;
    try (apply Forall_app; split;
         [assumption
         | constructor; [first [assumption | exact I] | constructor]]).
Qed.

Lemma rangeInv_initGame (rnd : Q) (stageNum : Z) (s : State) :
  0 <= rnd < 1 -> rangeInv s -> rangeInv (initGame rnd stageNum s).
Proof.
  intros V (R & S & Ap & P). unfold initGame.
  destruct (getBossForStage stageNum); [repeat split; try apply R; assumption|].
  unfold rangeInv. fields.
  split; [unfold inRange; lra|]. split; [constructor|].
  split; [now apply generateApples_range | exact P].
Qed.

Lemma rangeInv_handle (e : Event) (s : State) :
  validEvent e -> stageInv s -> rangeInv s -> rangeInv (handle e s).
Proof.
  intros V SI I.
  destruct e; cbn [handle]; cbn [validEvent] in V;
    try (destruct (GameState_eqb (gameState s) _) eqn:G; [|exact I]).
  - unfold frame. destruct (GameState_eqb _ _); [|exact I].
    destruct I as (R & S & Ap & P). split; [|repeat split; assumption].
    pose proof (rotationSpeed_pos s SI). unfold inRange in *.
    apply js_mod_range; lra.
  - destruct I as (R & S & Ap & P). unfold throwKnife.
    destruct (_ || _); [repeat split; try apply R; assumption|].
    unfold rangeInv. fields.
    split; [exact R|]. split; [exact S|]. split; [exact Ap|].
    apply Forall_app. split; [exact P|]. constructor; [|constructor].
    cbn [closureRange]. split; [now apply hitAngleOf_range|]. now split.
  - unfold fire. destruct (nth_error (pending s) i) as [cb|] eqn:E; [|exact I].
    assert (C : closureRange cb).
    { destruct I as (_ & _ & _ & P). rewrite Forall_forall in P.
      apply P. eapply nth_error_In; eauto. }
    assert (I' : rangeInv (setPending (removeNth i (pending s)) s)).
    { destruct I as (R & S & Ap & P). repeat split; proj; trivial;
        try apply R. now apply Forall_removeNth. }
    destruct cb as [h ks aps bl b|bl b]; cbn [runCallback].
    + now apply rangeInv_landed.
    + exact I'.
  - destruct (showDailyReward s); exact I.
  - now apply rangeInv_initGame.
  - unfold startBossLevel. destruct (currentBoss s); [|exact I].
    destruct I as (R & S & Ap & P).
    unfold rangeInv. fields.
    split; [unfold inRange; lra|]. split; [constructor|].
    split; [now apply generateApples_range | exact P].
  - destruct (hasUsedContinue s); cbn [andb negb]; exact I.
  - unfold restartGame. now apply rangeInv_initGame.
  - unfold nextStage. now apply rangeInv_initGame.
  - unfold watchAdDouble, nextStage. now apply rangeInv_initGame.
Qed.

Lemma reachable_rangeInv (s : State) : reachable s -> rangeInv s.
Proof.
  induction 1 as [sv s L|e s R IH V].
  - unfold loadSavedData in L.
    destruct (rewardIsDue sv); [destruct (dailyRewardAt _)|];
      try discriminate; injection L as <-;
      (repeat split; proj; try lra; constructor).
  - pose proof (reachable_stageInv s R) as SI.
    unfold step, recordHighScore.
    destruct (_ <? _)%Z; now apply rangeInv_handle.
Qed.

(** X5.  In every reachable state the rotation, every stuck knife,
    every apple and the hit angle of every throw in flight lie in
    [[0, 360)]. *)
Theorem angles_stay_on_the_board (s : State) :
  reachable s ->
  0 <= rotation s < 360 /\
  (forall k, In k (stuckKnives s) -> 0 <= k < 360) /\
  (forall a, In a (apples s) -> 0 <= apple_angle a < 360) /\
  (forall h ks aps bl b, In (Landing h ks aps bl b) (pending s) ->
                         0 <= h < 360).
Proof.
  intros R. destruct (reachable_rangeInv s R) as (Ro & S & Ap & P).
  rewrite Forall_forall in S, Ap, P.
  repeat split; try apply Ro; try (now apply S).
  - apply (Ap (apple_angle a)). now apply in_map.
  - apply (Ap (apple_angle a)). now apply in_map.
  - now apply (P _ H).
  - now apply (P _ H).
Qed.

(** ** Apples: hit once, one at a time *)

Lemma appleIsHit_marked (h k : Q) (a : AppleData) :
  appleIsHit h a = true ->
  appleIsHit k (mkApple (apple_id a) (apple_angle a) false) = false.
Proof. reflexivity. Qed.

Lemma markApples_nth (h : Q) (aps : list AppleData) (i : nat) (a : AppleData) :
  nth_error aps i = Some a ->
  nth_error (markApples h aps) i
  = Some (if appleIsHit h a
          then mkApple (apple_id a) (apple_angle a) false else a).
Proof.
  intros H. unfold markApples. now rewrite nth_error_map, H.
Qed.

Lemma visibleCount_markApples (h : Q) (aps : list AppleData) :
  (visibleCount (markApples h aps) + length (hitApples h aps))%nat
  = visibleCount aps.
Proof.
  unfold visibleCount, markApples, hitApples.
  induction aps as [|a aps IH]; [reflexivity|].
  cbn [map filter]. destruct (appleIsHit h a) eqn:E.
  - assert (V : apple_visible a = true).
    { unfold appleIsHit in E. now apply andb_true_iff in E. }
    rewrite V. cbn [apple_visible length]. lia.
  - destruct (apple_visible a); cbn [length]; lia.
Qed.

Lemma hitApples_markApples (h : Q) (aps : list AppleData) :
  hitApples h (markApples h aps) = [].
Proof.
  unfold hitApples, markApples.
  induction aps as [|a aps IH]; [reflexivity|].
  cbn [map filter]. destruct (appleIsHit h a) eqn:E.
  - cbn. exact IH.
  - rewrite E. exact IH.
Qed.

(** X6.  Marking the apples that a hit angle reaches keeps every
    apple in its place with its id and angle; exactly the reached
    ones go from visible to invisible, and an invisible apple stays
    as it is; the same angle then reaches no apple any more. *)
Theorem markApples_hits_once (h : Q) (aps : list AppleData) :
  length (markApples h aps) = length aps /\
  map apple_id (markApples h aps) = map apple_id aps /\
  map apple_angle (markApples h aps) = map apple_angle aps /\
  (forall i a a',
      nth_error aps i = Some a -> nth_error (markApples h aps) i = Some a' ->
      (apple_visible a = false -> a' = a) /\
      (apple_visible a' = true -> a' = a) /\
      (apple_visible a' = false <->
       apple_visible a = false \/ In a (hitApples h aps))) /\
  (visibleCount (markApples h aps) + length (hitApples h aps))%nat
  = visibleCount aps /\
  hitApples h (markApples h aps) = [].
Proof.
  split; [unfold markApples; apply length_map|].
  split.
  { unfold markApples. rewrite map_map. apply map_ext.
    intros a. now destruct (appleIsHit h a). }
  split; [apply markApples_angles|].
  split; [|split; [apply visibleCount_markApples | apply hitApples_markApples]].
  intros i a a' Ha Ha'. rewrite (markApples_nth h aps i a Ha) in Ha'.
  injection Ha' as <-.
  assert (Hin : In a aps) by (eapply nth_error_In; eauto).
  destruct (appleIsHit h a) eqn:E.
  - assert (V : apple_visible a = true).
    { unfold appleIsHit in E. now apply andb_true_iff in E. }
    repeat split; try (intros X; cbn in X; congruence).
    intros _. right. unfold hitApples. apply filter_In. now split.
  - repeat split; trivial.
    + intros X. now left.
    + intros [X|X]; trivial. unfold hitApples in X. apply filter_In in X.
      destruct X as [_ X]. congruence.
Qed.

(** Two points of the board that are both nearer than [d] to a third
    are nearer than [2 d] to each other. *)
Lemma angularDistance_between (a b h d : Q) :
  inRange a -> inRange b -> inRange h ->
  angularDistance a h < d -> angularDistance b h < d ->
  angularDistance a b < d + d.
Proof.
  unfold inRange, angularDistance. intros Ra Rb Rh.
  destruct (Q.min_spec (Qabs (a - h)) (360 - Qabs (a - h))) as [[_ E1]|[_ E1]];
    destruct (Q.min_spec (Qabs (b - h)) (360 - Qabs (b - h))) as [[_ E2]|[_ E2]];
    destruct (Q.min_spec (Qabs (a - b)) (360 - Qabs (a - b))) as [[L3 E3]|[L3 E3]];
    rewrite E1, E2, E3; clear E1 E2 E3;
    revert L3;
    apply (Qabs_case (a - h)); intros A1;
    apply (Qabs_case (b - h)); intros A2;
    apply (Qabs_case (a - b)); intros A3; intros; lra.
Qed.

Lemma filter_at_most_one {A : Type} (p : A -> bool) (l : list A) :
  (forall i j a b, i <> j -> nth_error l i = Some a -> nth_error l j = Some b ->
                   p a = true -> p b = true -> False) ->
  (length (filter p l) <= 1)%nat.
Proof.
  induction l as [|x l IH]; intros H; [cbn; lia|].
  assert (IH' : (length (filter p l) <= 1)%nat).
  { apply IH. intros i j a b Hij Ha Hb. apply (H (S i) (S j)); auto. }
  cbn [filter]. destruct (p x) eqn:Px; [|exact IH'].
  assert (N : filter p l = []).
  { destruct (filter p l) as [|y r] eqn:F; [reflexivity|].
    assert (Iy : In y (filter p l)) by (rewrite F; now left).
    apply filter_In in Iy. destruct Iy as [Iy Py].
    apply In_nth_error in Iy. destruct Iy as [j Hj].
    exfalso. apply (H 0%nat (S j) x y); auto. }
  rewrite N. cbn. lia.
Qed.

Lemma hitApples_at_most_one (h : Q) (aps : list AppleData) :
  applesApart aps ->
  (forall a, In a aps -> 0 <= apple_angle a < 360) ->
  0 <= h < 360 ->
  (length (hitApples h aps) <= 1)%nat.
Proof.
  intros Ap Ra Rh. unfold hitApples. apply filter_at_most_one.
  intros i j a b Hij Ha Hb Pa Pb.
  unfold appleIsHit in Pa, Pb.
  apply andb_true_iff in Pa. apply andb_true_iff in Pb.
  destruct Pa as [_ Pa]. destruct Pb as [_ Pb].
  apply Qltb_lt in Pa. apply Qltb_lt in Pb.
  rewrite angleDiff_angularDistance in Pa, Pb.
  pose proof (Ap i j a b Hij Ha Hb) as D.
  assert (X : angularDistance (apple_angle a) (apple_angle b)
              < APPLE_GAP + APPLE_GAP).
  { apply angularDistance_between with h; trivial;
      apply Ra; eapply nth_error_In; eauto. }
  lra.
Qed.

(** X7.  Among apples that are 30 degrees apart or more, a knife
    reaches at most one. *)
Theorem throw_reaches_one_apple_at_most (h : Q) (aps : list AppleData) :
  applesApart aps ->
  (forall a, In a aps -> 0 <= apple_angle a < 360) ->
  0 <= h < 360 ->
  (length (hitApples h aps) <= 1)%nat.
Proof. apply hitApples_at_most_one. Qed.

Lemma slots_apart (n : Z) (i j : nat) :
  (0 < n)%Z -> (i < j)%nat -> (j < Z.to_nat n)%nat ->
  360 / inject_Z n
  <= inject_Z (Z.of_nat j) * (360 / inject_Z n)
     - inject_Z (Z.of_nat i) * (360 / inject_Z n)
  <= 360 - 360 / inject_Z n.
Proof.
  intros Hn Hij Hj.
  pose proof (gap_pos n Hn) as G. pose proof (gap_total n Hn) as T.
  set (g := 360 / inject_Z n) in *.
  assert (E : inject_Z (Z.of_nat j) * g - inject_Z (Z.of_nat i) * g
              == (inject_Z (Z.of_nat j) - inject_Z (Z.of_nat i)) * g) by ring.
  rewrite E.
  assert (D1 : 1 <= inject_Z (Z.of_nat j) - inject_Z (Z.of_nat i)).
  { assert (X : inject_Z (Z.of_nat i) + 1 <= inject_Z (Z.of_nat j)).
    { change 1 with (inject_Z 1). rewrite <- inject_Z_plus, <- Zle_Qle. lia. }
    lra. }
  assert (D2 : inject_Z (Z.of_nat j) - inject_Z (Z.of_nat i) <= inject_Z n - 1).
  { assert (X : inject_Z (Z.of_nat j) + 1 <= inject_Z n).
    { change 1 with (inject_Z 1). rewrite <- inject_Z_plus, <- Zle_Qle. lia. }
    assert (Y : 0 <= inject_Z (Z.of_nat i)).
    { change 0 with (inject_Z 0). rewrite <- Zle_Qle. lia. }
    lra. }
  assert (M1 : 1 * g <= (inject_Z (Z.of_nat j) - inject_Z (Z.of_nat i)) * g)
    by (apply Qmult_le_compat_r; lra).
  assert (M2 : (inject_Z (Z.of_nat j) - inject_Z (Z.of_nat i)) * g
               <= (inject_Z n - 1) * g)
    by (apply Qmult_le_compat_r; lra).
  assert (F : (inject_Z n - 1) * g == inject_Z n * g - g) by ring.
  rewrite F, T in M2. split; lra.
Qed.

Lemma apart_of_gap (x y g : Q) :
  0 <= g -> g <= y - x <= 360 - g ->
  g <= angularDistance x y /\ g <= angularDistance y x.
Proof.
  intros G0 H. rewrite (angularDistance_sym y x). unfold angularDistance.
  assert (A : Qabs (x - y) == y - x).
  { apply (Qabs_case (x - y)); intros; lra. }
  destruct (Q.min_spec (Qabs (x - y)) (360 - Qabs (x - y))) as [[_ E]|[_ E]];
    rewrite E, A; split; lra.
Qed.

(** The apples that [generateApples] lays out for a count of at most
    12 are 30 degrees apart or more. *)
Lemma generateApples_apart (rnd : Q) (n : Z) :
  0 <= rnd < 1 -> (n <= 12)%Z -> applesApart (generateApples rnd n).
Proof.
  intros R Hn i j a b Hij Ha Hb.
  assert (Li : (i < length (generateApples rnd n))%nat)
    by (apply nth_error_Some; congruence).
  assert (Lj : (j < length (generateApples rnd n))%nat)
    by (apply nth_error_Some; congruence).
  unfold generateApples, generateApplesAt in Li, Lj.
  rewrite !length_map, length_seq in Li, Lj.
  assert (Np : (0 < n)%Z) by lia.
  pose proof (generateApples_offset rnd n Np R) as O.
  apply (map_nth_error apple_angle) in Ha, Hb.
  unfold generateApples in Ha, Hb.
  rewrite generateApplesAt_nth in Ha, Hb.
  destruct (Nat.ltb_spec i (Z.to_nat n)); [|lia].
  destruct (Nat.ltb_spec j (Z.to_nat n)); [|lia].
  injection Ha as Ha. injection Hb as Hb.
  pose proof (slot_angle n _ Np O i H) as Si.
  pose proof (slot_angle n _ Np O j H0) as Sj.
  rewrite Ha in Si. rewrite Hb in Sj.
  assert (G30 : APPLE_GAP + APPLE_GAP <= 360 / inject_Z n).
  { apply Qle_shift_div_l; [now apply count_pos|].
    unfold APPLE_GAP.
    assert (X : inject_Z n <= 12).
    { change 12 with (inject_Z 12). now rewrite <- Zle_Qle. }
    lra. }
  destruct (Nat.lt_ge_cases i j) as [C|C].
  - pose proof (slots_apart n i j Np C H0) as S.
    destruct (apart_of_gap (apple_angle a) (apple_angle b) (360 / inject_Z n))
      as [D _]; [pose proof (gap_pos n Np); lra | lra | lra].
  - assert (C' : (j < i)%nat) by lia.
    pose proof (slots_apart n j i Np C' H) as S.
    destruct (apart_of_gap (apple_angle b) (apple_angle a) (360 / inject_Z n))
      as [_ D]; [pose proof (gap_pos n Np); lra | lra | lra].
Qed.

Lemma applesApart_markApples (h : Q) (aps : list AppleData) :
  applesApart aps -> applesApart (markApples h aps).
Proof.
  intros Ap i j a b Hij Ha Hb.
  assert (Li : (i < length aps)%nat).
  { rewrite <- (length_map (fun x => x) aps). rewrite map_id.
    assert (X : (i < length (markApples h aps))%nat)
      by (apply nth_error_Some; congruence).
    unfold markApples in X. now rewrite length_map in X. }
  assert (Lj : (j < length aps)%nat).
  { assert (X : (j < length (markApples h aps))%nat)
      by (apply nth_error_Some; congruence).
    unfold markApples in X. now rewrite length_map in X. }
  destruct (nth_error aps i) as [a0|] eqn:Ea;
    [|apply nth_error_None in Ea; lia].
  destruct (nth_error aps j) as [b0|] eqn:Eb;
    [|apply nth_error_None in Eb; lia].
  rewrite (markApples_nth h aps i a0 Ea) in Ha.
  rewrite (markApples_nth h aps j b0 Eb) in Hb.
  injection Ha as <-. injection Hb as <-.
  pose proof (Ap i j a0 b0 Hij Ea Eb) as D.
  destruct (appleIsHit h a0); destruct (appleIsHit h b0); exact D.
Qed.

Lemma applesApart_nil : applesApart [].
Proof. intros [|i] j a b _ H; discriminate. Qed.

Lemma apartInv_landed h ks aps bl b s :
  applesApart aps -> apartInv s -> apartInv (landed h ks aps bl b s).
Proof.
  intros A (Ap & P). unfold landed.
  destruct (collides ks h); [now split|].
  assert (W : Forall closureApart (pending s ++ [WinTimer bl b])).
  { apply Forall_app. split; [assumption | constructor; [exact I | constructor]]. }
  pose proof (applesApart_markApples h aps A) as M.
  cbv zeta.
  destruct (0 <? _)%Z; destruct (_ <=? _)%Z; split; fields; assumption.
Qed.

Lemma apartInv_initGame (rnd : Q) (stageNum : Z) (s : State) :
  0 <= rnd < 1 -> apartInv s -> apartInv (initGame rnd stageNum s).
Proof.
  intros V (Ap & P). unfold initGame.
  destruct (getBossForStage stageNum); [now split|].
  split; fields; [|exact P].
  apply generateApples_apart; [exact V | unfold BASE_APPLES; lia].
Qed.

Lemma apartInv_handle (e : Event) (s : State) :
  validEvent e -> stageInv s -> apartInv s -> apartInv (handle e s).
Proof.
  intros V SI I.
  destruct e; cbn [handle]; cbn [validEvent] in V;
    try (destruct (GameState_eqb (gameState s) _) eqn:G; [|exact I]).
  - unfold frame. destruct (GameState_eqb _ _); exact I.
  - destruct I as (Ap & P). unfold throwKnife.
    destruct (_ || _); [now split|].
    split; fields; [exact Ap|].
    apply Forall_app. split; [exact P|]. constructor; [exact Ap | constructor].
  - unfold fire. destruct (nth_error (pending s) i) as [cb|] eqn:E; [|exact I].
    assert (C : closureApart cb).
    { destruct I as (_ & P). rewrite Forall_forall in P.
      apply P. eapply nth_error_In; eauto. }
    assert (I' : apartInv (setPending (removeNth i (pending s)) s)).
    { destruct I as (Ap & P). split; fields; trivial.
      now apply Forall_removeNth. }
    destruct cb as [h ks aps bl b|bl b]; cbn [runCallback].
    + now apply apartInv_landed.
    + exact I'.
  - destruct (showDailyReward s); exact I.
  - now apply apartInv_initGame.
  - unfold startBossLevel. destruct (currentBoss s) as [b|] eqn:E; [|exact I].
    destruct I as (Ap & P). split; fields; [|exact P].
    apply generateApples_apart; [exact V|].
    destruct SI as (_ & [B1 _] & _). rewrite E in B1. symmetry in B1.
    apply getBossForStage_In in B1. destruct B1 as [B1 _].
    apply BOSSES_apples in B1. lia.
  - destruct (hasUsedContinue s); cbn [andb negb]; exact I.
  - unfold restartGame. now apply apartInv_initGame.
  - unfold nextStage. now apply apartInv_initGame.
  - unfold watchAdDouble, nextStage. now apply apartInv_initGame.
Qed.

Lemma reachable_apartInv (s : State) : reachable s -> apartInv s.
Proof.
  induction 1 as [sv s L|e s R IH V].
  - unfold loadSavedData in L.
    destruct (rewardIsDue sv); [destruct (dailyRewardAt _)|];
      try discriminate; injection L as <-;
      (split; fields; [apply applesApart_nil | constructor]).
  - pose proof (reachable_stageInv s R) as SI.
    unfold step, recordHighScore.
    destruct (_ <? _)%Z; now apply apartInv_handle.
Qed.

(** X8.  In every reachable state a throw in flight lands in one of
    three ways: it collides (the round fails; score, coins, knives
    left and apple count stay); or it sticks for 10 points and one
    knife; or it sticks and takes one apple with it, for 15 points,
    5 coins and one more apple on the count.  No throw takes two
    apples. *)
Theorem landing_outcomes (s : State) (i : nat) h ks aps bl b :
  reachable s ->
  nth_error (pending s) i = Some (Landing h ks aps bl b) ->
  let t := fire i s in
  (gameState t = failed /\ stuckKnives t = stuckKnives s /\
   score t = score s /\ coins t = coins s /\
   knivesLeft t = knivesLeft s /\ applesHit t = applesHit s) \/
  (stuckKnives t = ks ++ [h] /\
   score t = (score s + 10)%Z /\ coins t = coins s /\
   knivesLeft t = (knivesLeft s - 1)%Z /\ applesHit t = applesHit s) \/
  (stuckKnives t = ks ++ [h] /\
   score t = (score s + 15)%Z /\ coins t = (coins s + 5)%Z /\
   knivesLeft t = (knivesLeft s - 1)%Z /\
   applesHit t = (applesHit s + 1)%Z).
Proof.
  intros R E t.
  assert (In1 : In (Landing h ks aps bl b) (pending s))
    by (eapply nth_error_In; eauto).
  destruct (reachable_apartInv s R) as (_ & PA).
  destruct (reachable_rangeInv s R) as (_ & _ & _ & PR).
  rewrite Forall_forall in PA, PR.
  pose proof (PA _ In1) as A. pose proof (PR _ In1) as (Rh & _ & Ra).
  cbn [closureApart] in A. rewrite Forall_forall in Ra.
  assert (L : (length (hitApples h aps) <= 1)%nat).
  { apply hitApples_at_most_one; trivial.
    intros a Ha. apply Ra. now apply in_map. }
  unfold t, fire. rewrite E. cbn [runCallback]. unfold landed.
  destruct (collides ks h); [left; repeat split|right].
  cbv zeta.
  destruct (length (hitApples h aps)) as [|[|n]] eqn:Len; [| |lia].
  - left. change (0 <? Z.of_nat 0)%Z with false. cbv iota.
    destruct (_ <=? _)%Z; proj; repeat split; lia.
  - right. change (0 <? Z.of_nat 1)%Z with true. cbv iota.
    destruct (_ <=? _)%Z; proj; repeat split; lia.
Qed.

(** ** The score *)

Lemma score_landed h ks aps bl b s :
  (score s <= score (landed h ks aps bl b s))%Z.
Proof.
  unfold landed. destruct (collides ks h); [proj; lia|].
  cbv zeta. destruct (0 <? _)%Z eqn:E; destruct (_ <=? _)%Z; proj; lia.
Qed.

Lemma score_initGame (rnd : Q) (stageNum : Z) (s : State) :
  score (initGame rnd stageNum s) = score s.
Proof. unfold initGame. now destruct (getBossForStage stageNum). Qed.

Lemma score_handle (e : Event) (s : State) :
  economyInv s ->
  (score s <= score (handle e s))%Z \/
  (exists rnd, e = PressRestart rnd /\ gameState s = failed /\
               score (handle e s) = 0%Z).
Proof.
  intros (D & B & P).
  destruct e; cbn [handle].
  - left. unfold frame. destruct (GameState_eqb _ _); proj; lia.
  - left. destruct (GameState_eqb _ _); [|lia].
    unfold throwKnife. destruct (_ || _); proj; lia.
  - left. unfold fire.
    destruct (nth_error (pending s) i) as [cb|] eqn:E; [|lia].
    assert (C : closureRewardOk cb).
    { rewrite Forall_forall in P. apply P. eapply nth_error_In; eauto. }
    destruct cb as [h ks aps bl b|bl b]; cbn [runCallback].
    + etransitivity; [|apply score_landed]. proj. lia.
    + proj. pose proof (bossOr_reward_nonneg bl b C). lia.
  - left. destruct (showDailyReward s); proj; lia.
  - left. destruct (GameState_eqb _ _); [|lia]. rewrite score_initGame. lia.
  - left. destruct (GameState_eqb _ _); [|lia].
    unfold startBossLevel. destruct (currentBoss s); proj; lia.
  - left. destruct (_ && _); proj; lia.
  - destruct (gameState s) eqn:G; cbn [GameState_eqb]; try (left; lia).
    right. exists rnd. repeat split.
  - left. destruct (GameState_eqb _ _); [|lia].
    unfold nextStage. rewrite score_initGame. proj. lia.
  - left. destruct (GameState_eqb _ _); [|lia].
    unfold watchAdDouble, nextStage. rewrite score_initGame. proj. lia.
Qed.

Lemma score_nonneg_handle (e : Event) (s : State) :
  economyInv s -> (0 <= score s)%Z -> (0 <= score (handle e s))%Z.
Proof.
  intros I S. destruct (score_handle e s I) as [H|(rnd & _ & _ & H)]; lia.
Qed.

Lemma reachable_score_nonneg (s : State) : reachable s -> (0 <= score s)%Z.
Proof.
  induction 1 as [sv s L|e s R IH V].
  - unfold loadSavedData in L.
    destruct (rewardIsDue sv); [destruct (dailyRewardAt _)|];
      try discriminate; injection L as <-; proj; lia.
  - destruct (highScore_step e s) as [_ ->].
    apply score_nonneg_handle; trivial. now apply reachable_economyInv.
Qed.

(** X9.  In every reachable state the score is not negative, and the
    only event that lowers it is the restart button of the failed
    screen, which sets it to 0 and the stage to 1, starts a round and
    keeps the coins; every other event keeps or raises the score. *)
Theorem score_only_reset_by_restart (s : State) (e : Event) :
  reachable s ->
  (0 <= score s)%Z /\
  ((score s <= score (step e s))%Z \/
   (exists rnd, e = PressRestart rnd /\ gameState s = failed /\
                score (step e s) = 0%Z /\ stage (step e s) = 1%Z /\
                gameState (step e s) = playing /\
                isBossLevel (step e s) = false /\
                coins (step e s) = coins s)).
Proof.
  intros R. split; [now apply reachable_score_nonneg|].
  pose proof (reachable_economyInv s R) as I.
  destruct (highScore_step e s) as [H1 H2]. rewrite H2.
  destruct (score_handle e s I) as [H|(rnd & -> & G & H)]; [now left|].
  right. exists rnd. split; [reflexivity|]. split; [exact G|].
  split; [exact H|].
  unfold step, recordHighScore. cbn [handle]. rewrite G.
  cbn [GameState_eqb]. unfold restartGame, initGame.
  change (getBossForStage 1) with (@None BossData). cbv iota.
  destruct (_ <? _)%Z; repeat split.
Qed.

(** ** The daily reward on launch *)

Lemma dailyRewardAt_defined (i : Z) :
  (0 <= i < 7)%Z -> exists r, dailyRewardAt i = Some r.
Proof.
  intros H. unfold dailyRewardAt.
  destruct (Z.ltb_spec i 0); [lia|].
  destruct (nth_error DAILY_REWARDS (Z.to_nat i)) as [r|] eqn:E; [now exists r|].
  apply nth_error_None in E. cbn in E. lia.
Qed.

(** X10.  On launch with the reward due, any stored streak day from 1
    up selects entry [(day - 1) mod 7] of the table, the dialog comes
    up, and the claim pays that entry, moves the day to
    [(day mod 7) + 1], which is in 1..7, and closes the dialog, so
    that the reward cannot be claimed twice in a session.  A stored
    day of 0 or less selects no entry unless [day - 1] is a multiple
    of 7.  With no reward due the dialog stays closed and a claim
    changes nothing. *)
Theorem daily_reward_on_launch (sv : Saved) :
  (rewardIsDue sv = true -> (1 <= savedRewardDay sv)%Z ->
   exists s reward,
     loadSavedData sv mountState = Some s /\
     showDailyReward s = true /\
     nth_error DAILY_REWARDS (Z.to_nat ((savedRewardDay sv - 1) mod 7))
       = Some reward /\
     let t := handle PressClaim s in
     coins t = (savedCoins sv + reward)%Z /\
     rewardDay t = (savedRewardDay sv mod 7 + 1)%Z /\
     (1 <= rewardDay t <= 7)%Z /\
     showDailyReward t = false /\
     handle PressClaim t = t) /\
  (rewardIsDue sv = true -> (savedRewardDay sv <= 0)%Z ->
   Z.rem (savedRewardDay sv - 1) 7 <> 0%Z ->
   loadSavedData sv mountState = None) /\
  (rewardIsDue sv = false ->
   exists s,
     loadSavedData sv mountState = Some s /\
     showDailyReward s = false /\ coins s = savedCoins sv /\
     handle PressClaim s = s).
Proof.
  split; [|split].
  - intros Due D. unfold loadSavedData. rewrite Due.
    change (Z.of_nat (length DAILY_REWARDS)) with 7%Z.
    rewrite Z.rem_mod_nonneg by lia.
    pose proof (Z.mod_pos_bound (savedRewardDay sv - 1) 7 ltac:(lia)) as Bd.
    destruct (dailyRewardAt_defined _ Bd) as [r Hr]. rewrite Hr.
    eexists. exists r. split; [reflexivity|]. split; [reflexivity|].
    split.
    { unfold dailyRewardAt in Hr.
      destruct (Z.ltb_spec ((savedRewardDay sv - 1) mod 7) 0); [lia|exact Hr]. }
    cbn [handle]. fields. unfold claimDailyReward. fields.
    change (Z.of_nat (length DAILY_REWARDS)) with 7%Z.
    rewrite Z.rem_mod_nonneg by lia.
    pose proof (Z.mod_pos_bound (savedRewardDay sv) 7 ltac:(lia)).
    repeat split; lia.
  - intros Due D N. unfold loadSavedData. rewrite Due.
    change (Z.of_nat (length DAILY_REWARDS)) with 7%Z.
    unfold dailyRewardAt.
    pose proof (Z.rem_nonpos (savedRewardDay sv - 1) 7 ltac:(lia) ltac:(lia)).
    destruct (Z.ltb_spec (Z.rem (savedRewardDay sv - 1) 7) 0); [reflexivity|lia].
  - intros Due. unfold loadSavedData. rewrite Due.
    eexists. split; [reflexivity|]. repeat split.
Qed.

(** ** Out of knives *)

Lemma deadEnd_handle (e : Event) (s : State) :
  gameState s = playing -> (knivesLeft s <= 0)%Z -> pending s = [] ->
  let t := handle e s in
  gameState t = playing /\ knivesLeft t = knivesLeft s /\ pending t = [] /\
  stuckKnives t = stuckKnives s /\ score t = score s /\ stage t = stage s /\
  apples t = apples s /\ hasUsedContinue t = hasUsedContinue s.
Proof.
  intros G K P.
  destruct e; cbn [handle]; rewrite ?G; cbn [GameState_eqb andb].
  - unfold frame. rewrite G. cbn [GameState_eqb]. fields. repeat split; trivial.
  - unfold throwKnife. rewrite G. cbn [GameState_eqb negb orb].
    destruct (Z.leb_spec (knivesLeft s) 0); [|lia].
    cbn [orb]. repeat split; trivial.
  - rewrite fire_nothing by exact P. repeat split; trivial.
  - destruct (showDailyReward s); fields; repeat split; trivial.
  - repeat split; trivial.
  - repeat split; trivial.
  - repeat split; trivial.
  - repeat split; trivial.
  - repeat split; trivial.
  - repeat split; trivial.
Qed.

(** X11.  A round that is being played with no knife left and no
    callback pending stays so for ever: whatever events follow, the
    phase is playing, and the ledger, the knives left, the score and
    the stage do not change.  No button of the playing screen leads
    out. *)
Theorem out_of_knives_is_a_dead_end (s : State) (es : list Event) :
  gameState s = playing ->
  (knivesLeft s <= 0)%Z ->
  pending s = [] ->
  let t := run es s in
  gameState t = playing /\
  knivesLeft t = knivesLeft s /\
  stuckKnives t = stuckKnives s /\
  score t = score s /\
  stage t = stage s /\
  pending t = [].
Proof.
  revert s. induction es as [|e es IH]; intros s G K P; [now repeat split|].
  cbn [run fold_left]. fold (run es (step e s)).
  destruct (deadEnd_handle e s G K P) as (G1 & K1 & P1 & S1 & Sc1 & St1 & _).
  assert (V : sameButHighScore (step e s) (handle e s))
    by apply recordHighScore_same.
  apply sameButHighScore_inv in V. destruct V as [hs V].
  destruct (IH (step e s)) as (A & B & C & D & E & F);
    rewrite ?V; fields; trivial; [lia|].
  rewrite V in *. cbn [knivesLeft stuckKnives score stage setHighScore] in *.
  repeat split; congruence.
Qed.

Lemma outOfKnives_run : outOfKnives = run continueSpent (bootOf freshInstall).
Proof. vm_compute. reflexivity. Qed.

Lemma reachable_outOfKnives : reachable outOfKnives.
Proof.
  rewrite outOfKnives_run.
  apply reachable_run; [apply reachable_fresh | vm_compute; reflexivity].
Qed.

Lemma out_of_knives_is_a_dead_end_witness :
  reachable outOfKnives /\
  length (stuckKnives outOfKnives) = 4%nat /\
  knifeBudget outOfKnives = 10%Z /\
  forall es,
    let t := run es outOfKnives in
    gameState t = playing /\
    knivesLeft t = knivesLeft outOfKnives /\
    stuckKnives t = stuckKnives outOfKnives /\
    score t = score outOfKnives /\
    stage t = stage outOfKnives /\
    pending t = [].
Proof.
  split; [exact reachable_outOfKnives|].
  split; [reflexivity|]. split; [reflexivity|].
  intros es.
  apply (out_of_knives_is_a_dead_end outOfKnives es); [reflexivity| |reflexivity].
  vm_compute. discriminate.
Defined.

(** ** The accounts of a round, when nothing overlaps *)

Lemma generateApples_all_visible (rnd : Q) (n : Z) :
  visibleCount (generateApples rnd n) = length (generateApples rnd n) /\
  length (generateApples rnd n) = Z.to_nat n /\
  map apple_id (generateApples rnd n) = map Z.of_nat (seq 0 (Z.to_nat n)).
Proof.
  unfold visibleCount, generateApples, generateApplesAt.
  split; [|split].
  - induction (map Z.of_nat (seq 0 (Z.to_nat n))) as [|i l IH]; [reflexivity|].
    cbn [map filter apple_visible length]. now rewrite IH.
  - now rewrite !length_map, length_seq.
  - rewrite map_map. cbn [apple_id]. apply map_id.
Qed.

Lemma countInv_same (s t : State) :
  sameButHighScore s t -> countInv t -> countInv s.
Proof.
  intros H. apply sameButHighScore_inv in H. destruct H as [hs ->]. trivial.
Qed.

Lemma knifeBudget_ge (s : State) : bossConsistent s -> (10 <= knifeBudget s)%Z.
Proof.
  intros [C L]. unfold knifeBudget, bossOr.
  destruct (currentBoss s) as [b|] eqn:E; [|unfold BASE_KNIVES; lia].
  rewrite L. symmetry in C. apply getBossForStage_In in C.
  destruct C as [C _]. apply BOSSES_knives in C. lia.
Qed.

Lemma countInv_initGame (rnd : Q) (stageNum : Z) (s : State) :
  applesHit s
  = (Z.of_nat (length (apples s)) - Z.of_nat (visibleCount (apples s)))%Z ->
  countInv (initGame rnd stageNum s).
Proof.
  intros A. unfold initGame.
  destruct (getBossForStage stageNum).
  - split; fields; [exact A|]. intros [X|[X|X]]; discriminate.
  - destruct (generateApples_all_visible rnd BASE_APPLES) as (V & L & _).
    split; fields; [rewrite V; lia|].
    intros _. unfold knifeBudget, bossOr. fields. cbn [length].
    unfold BASE_KNIVES. split; lia.
Qed.

Lemma countInv_startBossLevel (rnd : Q) (s : State) :
  bossConsistent s -> countInv s -> countInv (startBossLevel rnd s).
Proof.
  intros [C L] I. unfold startBossLevel.
  destruct (currentBoss s) as [b|] eqn:E; [|exact I].
  destruct (generateApples_all_visible rnd (boss_apples b)) as (V & _).
  split; fields; [rewrite V; lia|].
  intros _. unfold knifeBudget, bossOr. fields. rewrite E, L. cbn [length].
  symmetry in C. apply getBossForStage_In in C. destruct C as [C _].
  apply BOSSES_knives in C. split; lia.
Qed.

(** What a landing without collision does to the accounts. *)
Lemma landed_count_view h ks aps bl b s :
  collides ks h = false ->
  let t := landed h ks aps bl b s in
  knivesLeft t = (knivesLeft s - 1)%Z /\
  hasUsedContinue t = hasUsedContinue s /\
  ((apples t = apples s /\ applesHit t = applesHit s /\ hitApples h aps = [])
   \/ (apples t = markApples h aps /\
       applesHit t = (applesHit s + Z.of_nat (length (hitApples h aps)))%Z)).
Proof.
  intros C. unfold landed. rewrite C. cbv zeta.
  destruct (Z.ltb_spec 0 (Z.of_nat (length (hitApples h aps)))) as [X|X];
    destruct (_ <=? _)%Z; fields; (split; [reflexivity|]);
    (split; [reflexivity|]); try (right; now split);
    left; (repeat split); destruct (hitApples h aps); trivial; cbn in X; lia.
Qed.

Lemma countInv_landing (h r : Q) (s : State) :
  quietInv s -> countInv s ->
  gameState s = playing -> (0 < knivesLeft s)%Z ->
  countInv (handle (Fire 0)
              (landed h (stuckKnives s) (apples s) (isBossLevel s) (currentBoss s)
                      (s |> setRotation r |> setIsThrowing true))).
Proof.
  intros (P & T & B & R & W & L) (A & K) G Kp.
  destruct (K (or_introl G)) as (K1 & K2).
  destruct (collides (stuckKnives s) h) eqn:C.
  - unfold landed. rewrite C. cbn [handle]. unfold fire. fields.
    rewrite P. cbn [nth_error].
    split; fields; [exact A|]. intros _. now split.
  - pose proof (landed_clean_view h (stuckKnives s) (apples s) (isBossLevel s)
                  (currentBoss s) (s |> setRotation r |> setIsThrowing true) C)
      as V.
    pose proof (landed_count_view h (stuckKnives s) (apples s) (isBossLevel s)
                  (currentBoss s) (s |> setRotation r |> setIsThrowing true) C)
      as Vc.
    cbv zeta in V, Vc.
    set (t := landed h (stuckKnives s) (apples s) (isBossLevel s) (currentBoss s)
                (s |> setRotation r |> setIsThrowing true)) in *.
    destruct V as (K1' & G1 & T1 & St1 & Cb1 & Bl1 & Pe1).
    destruct Vc as (Kn1 & U1 & Ap1).
    cbn [pending gameState stage currentBoss isBossLevel knivesLeft apples
         applesHit hasUsedContinue setIsThrowing setRotation]
      in G1, St1, Cb1, Bl1, Pe1, Kn1, U1, Ap1.
    assert (Kt : knifeBudget t = knifeBudget s).
    { unfold knifeBudget. now rewrite Cb1, Bl1. }
    assert (Len : Z.of_nat (length (stuckKnives t))
                  = (Z.of_nat (length (stuckKnives s)) + 1)%Z).
    { rewrite K1', length_app, Nat2Z.inj_add. reflexivity. }
    assert (At : applesHit t
                 = (Z.of_nat (length (apples t))
                    - Z.of_nat (visibleCount (apples t)))%Z).
    { destruct Ap1 as [(E1 & E2 & _)|(E1 & E2)]; rewrite E1, E2; [exact A|].
      pose proof (visibleCount_markApples h (apples s)) as Vm.
      unfold markApples at 1. rewrite length_map. lia. }
    assert (Gt : gameState t = playing) by (now rewrite G1).
    assert (Ct : countInv t).
    { split; [exact At|]. intros _. rewrite Kn1, Kt, Len, U1.
      split; [lia | intros X; specialize (K2 X); lia]. }
    cbn [handle]. unfold fire. rewrite P in Pe1. cbn [app] in Pe1.
    rewrite Pe1.
    destruct (_ <=? _)%Z; cbn [nth_error removeNth runCallback]; [|exact Ct].
    unfold winTimeout. destruct Ct as (X1 & X2).
    split; [exact X1|]. intros _. apply X2. now left.
Qed.

Lemma countInv_throw (m : nat) (s : State) :
  quietInv s -> countInv s -> countInv (handleRun (eventsOf (AThrow m)) s).
Proof.
  intros Q I. cbn [eventsOf]. rewrite handleRun_app.
  change (handleRun [Fire 0] ?x) with (handle (Fire 0) x).
  assert (P : pending s = []) by apply Q.
  assert (T : isThrowing s = false) by apply Q.
  assert (Refused : handle Tap s = s ->
            countInv (handle (Fire 0)
                        (handleRun (Tap :: repeat Frame m ++ [Fire 0]) s))).
  { intros E. cbn [handleRun fold_left]. rewrite E.
    fold (handleRun (repeat Frame m ++ [Fire 0]) s).
    rewrite handleRun_app, handleRun_frames, (frames_only_rotation m s).
    cbn [handleRun fold_left handle].
    rewrite !(fire_nothing 0 (setRotation _ s)) by exact P. exact I. }
  destruct (gameState s) eqn:G;
    try (apply Refused, tap_refused; [exact T | intros [X _]; congruence]).
  destruct (Z.ltb_spec 0 (knivesLeft s)) as [K|K].
  - pose proof (throw_to_landing 0 m s G T K P) as E. cbv zeta in E.
    cbn [repeat app] in E. rewrite E.
    now apply countInv_landing.
  - apply Refused, tap_refused; [exact T | intros [_ X]; lia].
Qed.

Lemma countInv_act (a : Action) (s : State) :
  quietInv s -> countInv s -> countInv (handleRun (eventsOf a) s).
Proof.
  intros Q I. destruct a; try (now apply countInv_throw);
    cbn [eventsOf handleRun fold_left handle].
  - unfold frame. destruct (GameState_eqb _ _); exact I.
  - destruct (showDailyReward s); exact I.
  - destruct (GameState_eqb _ _); trivial. apply countInv_initGame, I.
  - destruct (GameState_eqb _ _); trivial.
    apply countInv_startBossLevel; trivial. apply Q.
  - destruct (gameState s) eqn:G; cbn [GameState_eqb andb]; try exact I.
    destruct (hasUsedContinue s); cbn [negb]; [exact I|].
    destruct I as (A & K). unfold watchAdContinue.
    split; fields; [exact A|].
    intros _. assert (B : bossConsistent s) by apply Q.
    pose proof (knifeBudget_ge s B) as Kb.
    unfold knifeBudget in *. fields.
    split; [lia | discriminate].
  - destruct (GameState_eqb _ _); trivial.
    unfold restartGame. apply countInv_initGame, I.
  - destruct (GameState_eqb _ _); trivial.
    unfold nextStage. apply countInv_initGame, I.
  - destruct (GameState_eqb _ _); trivial.
    unfold watchAdDouble, nextStage. apply countInv_initGame, I.
Qed.

Lemma quietReachable_countInv (s : State) : quietReachable s -> countInv s.
Proof.
  induction 1 as [sv s L|a s R IH].
  - unfold loadSavedData in L.
    destruct (rewardIsDue sv); [destruct (dailyRewardAt _)|];
      try discriminate; injection L as <-;
      (split; fields; [reflexivity|]; intros [X|[X|X]]; discriminate).
  - apply countInv_same with (handleRun (eventsOf a) s).
    + apply run_sameButHighScore. reflexivity.
    + apply countInv_act; trivial. now apply quietReachable_quietInv.
Qed.

(** X12.  In a session where every callback has run before the next
    tap or press: the apple count is the number of invisible apples,
    so it never exceeds the number of apples; and while a round is
    played, failed or won, the knives left are between 0 and the
    budget of the stage, and until the continue is taken they are the
    budget less the knives in the board. *)
Theorem round_accounts (s : State) :
  quietReachable s ->
  applesHit s
  = (Z.of_nat (length (apples s)) - Z.of_nat (visibleCount (apples s)))%Z /\
  (0 <= applesHit s <= Z.of_nat (length (apples s)))%Z /\
  (gameState s = playing \/ gameState s = failed \/ gameState s = win ->
   (0 <= knivesLeft s <= stageBudget (stage s))%Z /\
   (hasUsedContinue s = false ->
    (knivesLeft s + Z.of_nat (length (stuckKnives s)))%Z
    = stageBudget (stage s))).
Proof.
  intros R. pose proof (quietReachable_quietInv s R) as Q.
  destruct (quietReachable_countInv s R) as (A & K).
  assert (B : bossConsistent s) by apply Q.
  rewrite <- (knifeBudget_stage s B).
  split; [exact A|]. split; [|exact K].
  assert (V : (visibleCount (apples s) <= length (apples s))%nat)
    by apply filter_length_le.
  lia.
Qed.

(** ** The rotation as a function of the frames *)





#[local] Instance Qtrunc_wd : Proper (Qeq ==> eq) Qtrunc.
Proof.
  intros x y E. unfold Qtrunc.
  rewrite (Qfloor_comp x y E), (Qceiling_comp x y E).
  now rewrite (Qleb_comp 0 0 (Qeq_refl 0) x y E).
Qed.

#[local] Instance js_mod_wd : Proper (Qeq ==> Qeq ==> Qeq) js_mod.
Proof.
  intros x y E m n F. unfold js_mod.
  assert (T : Qtrunc (x / m) = Qtrunc (y / n)).
  { apply Qtrunc_wd. now rewrite E, F. }
  rewrite T. now rewrite E, F.
Qed.



(** ** Explosions do not touch the game *)

Lemma sameButExplosions_inv (s t : State) :
  sameButExplosions s t -> exists x, s = setExplosions x t.
Proof.
  unfold sameButExplosions. intros H. exists (explosions s).
  destruct s, t; cbn in *. now inversion H.
Qed.

Lemma landed_explosions x h ks aps bl b s :
  sameButExplosions (landed h ks aps bl b (setExplosions x s))
                    (landed h ks aps bl b s).
Proof.
  unfold sameButExplosions, landed. destruct (collides ks h); [reflexivity|].
  cbv zeta. destruct (0 <? _)%Z; destruct (_ <=? _)%Z; reflexivity.
Qed.

Lemma initGame_explosions x rnd stageNum s :
  sameButExplosions (initGame rnd stageNum (setExplosions x s))
                    (initGame rnd stageNum s).
Proof.
  unfold sameButExplosions, initGame. now destruct (getBossForStage stageNum).
Qed.

Lemma handle_explosions (x : list Q) (e : Event) (s : State) :
  sameButExplosions (handle e (setExplosions x s)) (handle e s).
Proof.
  destruct e; cbn [handle];
    cbn [gameState showDailyReward hasUsedContinue setExplosions];
    try (destruct (GameState_eqb _ _); [|reflexivity]).
  - unfold frame. cbn [gameState setExplosions].
    destruct (GameState_eqb _ _); reflexivity.
  - unfold throwKnife. cbn [gameState knivesLeft isThrowing setExplosions].
    destruct (_ || _); reflexivity.
  - unfold fire. cbn [pending setExplosions].
    destruct (nth_error _ _) as [[h ks aps bl b|bl b]|];
      cbn [runCallback]; try reflexivity.
    apply (landed_explosions x h ks aps bl b
             (setPending (removeNth i (pending s)) s)).
  - destruct (showDailyReward s); reflexivity.
  - apply initGame_explosions.
  - unfold startBossLevel. cbn [currentBoss setExplosions].
    destruct (currentBoss s); reflexivity.
  - destruct (_ && _); reflexivity.
  - unfold restartGame.
    apply (initGame_explosions x rnd 1%Z
             (s |> setScore 0%Z |> setStage 1%Z |> setIsBossLevel false
                |> setCurrentBoss None)).
  - unfold nextStage.
    apply (initGame_explosions x rnd (stage s + 1)%Z
             (setStage (stage s + 1)%Z s)).
  - unfold watchAdDouble, nextStage.
    apply (initGame_explosions x rnd (stage s + 1)%Z
             (s |> modCoins (fun c => c + bossOr (isBossLevel s) (currentBoss s)
                                            boss_reward 50)%Z
                |> setStage (stage s + 1)%Z)).
Qed.

Lemma step_explosions (e : Event) (s t : State) :
  sameButExplosions s t -> sameButExplosions (step e s) (step e t).
Proof.
  intros H. apply sameButExplosions_inv in H. destruct H as [x ->].
  pose proof (handle_explosions x e t) as E.
  apply sameButExplosions_inv in E. destruct E as [y E].
  unfold step. rewrite E. unfold sameButExplosions, recordHighScore.
  cbn [highScore score setExplosions].
  destruct (_ <? _)%Z; reflexivity.
Qed.

Lemma removeExplosion_filter (angle : Q) (s : State) :
  explosions (removeExplosion angle s)
  = filter (fun a => negb (Qeq_bool a angle)) (explosions s).
Proof. reflexivity. Qed.

(** X14.  When the animation of an explosion ends, every explosion
    at that angle is dropped from the list, the others stay in their
    order, and nothing else in the state changes.  A session with
    such endings anywhere in it ends in the state of the same session
    without them, but for the list of explosions: the explosions
    never touch the game. *)
Theorem explosions_never_touch_the_game (angle : Q) (s : State)
    (xs : list Happening) :
  (forall a, In a (explosions (removeExplosion angle s)) <->
             In a (explosions s) /\ ~ a == angle) /\
  (forall a b l1 l2, explosions (removeExplosion angle s) = l1 ++ a :: l2 ->
                     In b l2 ->
                     exists m1 m2 m3, explosions s = m1 ++ a :: m2 ++ b :: m3) /\
  removeExplosion angle s
  = setExplosions (explosions (removeExplosion angle s)) s /\
  sameButExplosions (play xs s) (run (eventsOnly xs) s).
Proof.
  split; [|split; [|split]].
  - intros a. rewrite removeExplosion_filter, filter_In.
    split; intros [H1 H2]; split; trivial.
    + intros E. apply Qeq_bool_iff in E. rewrite E in H2. discriminate.
    + destruct (Qeq_bool a angle) eqn:E; trivial.
      apply Qeq_bool_iff in E. contradiction.
  - rewrite removeExplosion_filter.
    generalize (explosions s). intros l.
    induction l as [|x l IH]; intros a b l1 l2 E Hb.
    + destruct l1; discriminate.
    + cbn [filter] in E. destruct (negb (Qeq_bool x angle)).
      * destruct l1 as [|y l1]; cbn [app] in E; injection E as <- E.
        -- assert (Ib : In b (filter (fun a0 => negb (Qeq_bool a0 angle)) l))
             by (rewrite E; exact Hb).
           apply filter_In in Ib. destruct Ib as [Ib _].
           apply in_split in Ib. destruct Ib as (m2 & m3 & ->).
           now exists [], m2, m3.
        -- destruct (IH a b l1 l2 E Hb) as (m1 & m2 & m3 & ->).
           now exists (x :: m1), m2, m3.
      * destruct (IH a b l1 l2 E Hb) as (m1 & m2 & m3 & ->).
        now exists (x :: m1), m2, m3.
  - reflexivity.
  - revert s. induction xs as [|[e|a] xs IH]; intros s.
    + reflexivity.
    + cbn [play fold_left happen eventsOnly run].
      fold (play xs (step e s)). fold (run (eventsOnly xs) (step e s)).
      apply IH.
    + cbn [play fold_left happen eventsOnly].
      fold (play xs (removeExplosion a s)).
      assert (G : forall es u w, sameButExplosions u w ->
                                 sameButExplosions (run es u) (run es w)).
      { intros es. induction es as [|e es IHes]; intros u w H; trivial.
        cbn [run fold_left]. apply IHes. now apply step_explosions. }
      unfold sameButExplosions in *.
      rewrite (IH (removeExplosion a s)).
      apply G. reflexivity.
Qed.

(** ** The first version of the screen *)

Lemma classic_collides_false (ks : list Q) (h : Q) :
  Classic.collides ks h = false <->
  forall k, In k ks -> Classic.COLLISION_GAP <= angularDistance k h.
Proof.
  unfold Classic.collides. split.
  - intros H k Hk.
    rewrite <- angleDiff_angularDistance. apply Qltb_ge.
    destruct (Qltb (angleDiff k h) Classic.COLLISION_GAP) eqn:E; trivial.
    assert (X : existsb (fun x => Qltb (angleDiff x h) Classic.COLLISION_GAP) ks
                = true)
      by (apply existsb_exists; now exists k).
    congruence.
  - intros H.
    destruct (existsb _ ks) eqn:E; trivial.
    apply existsb_exists in E. destruct E as [k [Hk L]].
    apply Qltb_lt in L. rewrite angleDiff_angularDistance in L.
    specialize (H k Hk). lra.
Qed.

Lemma classic_Separated_snoc (ks : list Q) (h : Q) :
  Classic.Separated ks -> Classic.collides ks h = false ->
  Classic.Separated (ks ++ [h]).
Proof.
  intros S C i j a b Hij Ha Hb.
  rewrite classic_collides_false in C.
  assert (Li : (i < length (ks ++ [h]))%nat)
    by (apply nth_error_Some; congruence).
  assert (Lj : (j < length (ks ++ [h]))%nat)
    by (apply nth_error_Some; congruence).
  rewrite length_app in Li, Lj. cbn in Li, Lj.
  destruct (Nat.lt_ge_cases i (length ks)) as [Ii|Ii];
    destruct (Nat.lt_ge_cases j (length ks)) as [Ij|Ij].
  - rewrite nth_error_app1 in Ha, Hb by assumption. eapply S; eauto.
  - rewrite nth_error_app1 in Ha by assumption.
    rewrite nth_error_app2 in Hb by assumption.
    replace (j - length ks)%nat with 0%nat in Hb by lia.
    injection Hb as <-. apply C. eapply nth_error_In; eauto.
  - rewrite nth_error_app2 in Ha by assumption.
    rewrite nth_error_app1 in Hb by assumption.
    replace (i - length ks)%nat with 0%nat in Ha by lia.
    injection Ha as <-. rewrite angularDistance_sym.
    apply C. eapply nth_error_In; eauto.
  - lia.
Qed.

Lemma classic_Separated_nil : Classic.Separated [].
Proof. intros [|i] j a b _ H; discriminate. Qed.

Lemma classic_inv_throwKnife (s : Classic.State) :
  Classic.inv s -> Classic.inv (Classic.throwKnife s).
Proof.
  intros I. unfold Classic.throwKnife.
  destruct (Classic.gameState s) eqn:G; try exact I.
  destruct (Z.leb_spec (Classic.knivesLeft s) 0) as [L|L]; [exact I|].
  destruct I as (S1 & R & K & K0 & Sep & W & Sc). rewrite G in Sc.
  unfold Classic.TOTAL_KNIVES in *. cbv zeta.
  destruct (Classic.collides (Classic.knives s) _) eqn:C.
  - unfold Classic.inv. cbn [Classic.stage Classic.rotation Classic.knives
      Classic.knivesLeft Classic.gameState Classic.score].
    unfold Classic.TOTAL_KNIVES.
    split; [exact S1|]. split; [exact R|]. split; [exact K|].
    split; [exact K0|]. split; [exact Sep|].
    split; [split; [discriminate | intros X; lia]|exact Sc].
  - pose proof (classic_Separated_snoc _ _ Sep C) as Sep'.
    rewrite length_app, Nat2Z.inj_add. cbn [length]. change (Z.of_nat 1) with 1%Z.
    destruct (Z.eqb_spec (Z.of_nat (length (Classic.knives s)) + 1) 8) as [E|E];
      unfold Classic.inv; cbn [Classic.stage Classic.rotation Classic.knives
        Classic.knivesLeft Classic.gameState Classic.score];
      rewrite ?length_app, ?Nat2Z.inj_add; cbn [length];
      change (Z.of_nat 1) with 1%Z; unfold Classic.TOTAL_KNIVES;
      rewrite ?G;
      (split; [exact S1|]); (split; [exact R|]); (split; [lia|]);
      (split; [lia|]); (split; [exact Sep'|]); (split; [|lia]).
    + split; trivial.
    + split; [discriminate | intros X; lia].
Qed.

Lemma classic_inv_handle (e : Classic.Event) (s : Classic.State) :
  Classic.inv s -> Classic.inv (Classic.handle e s).
Proof.
  intros I. destruct e; unfold Classic.handle.
  - unfold Classic.frame. destruct (Classic.gameState s) eqn:G; try exact I.
    destruct I as (S1 & R & K & K0 & Sep & W & Sc). rewrite G in W, Sc.
    unfold Classic.inv. cbn [Classic.stage Classic.rotation Classic.knives
      Classic.knivesLeft Classic.gameState Classic.score].
    split; [exact S1|]. split.
    { apply js_mod_range; unfold Classic.ROTATION_SPEED; lra. }
    split; [exact K|]. split; [exact K0|]. split; [exact Sep|].
    split; [exact W | exact Sc].
  - destruct (Classic.gameState s) eqn:G; try exact I.
    now apply classic_inv_throwKnife.
  - destruct (Classic.gameState s) eqn:G; try exact I.
    unfold Classic.inv. cbn.
    repeat split; try lra; try lia; try discriminate;
      apply classic_Separated_nil.
  - destruct (Classic.gameState s) eqn:G; try exact I.
    destruct I as (S1 & R & K & K0 & Sep & W & Sc). rewrite G in Sc.
    assert (L : Z.of_nat (length (Classic.knives s)) = 8%Z) by now apply W.
    unfold Classic.inv.
    cbn [Classic.stage Classic.rotation Classic.knives Classic.knivesLeft
         Classic.gameState Classic.score Classic.nextStage length].
    unfold Classic.TOTAL_KNIVES in *.
    split; [lia|]. split; [lra|]. split; [lia|]. split; [lia|].
    split; [apply classic_Separated_nil|].
    split; [split; intros X; discriminate | lia].
Qed.

Lemma classic_reachable_inv (s : Classic.State) :
  Classic.reachable s -> Classic.inv s.
Proof.
  induction 1 as [|e s R IH]; [|now apply classic_inv_handle].
  unfold Classic.inv. cbn.
  repeat split; try lra; try lia; try discriminate.
  apply classic_Separated_nil.
Qed.

(** X15.  In every state of the first version of the screen the
    knives left and the knives in the log add up to 8; the phase is
    win exactly when the log holds 8 knives, and failed only with
    fewer; any two knives in the log are at angular distance 25 or
    more; the rotation is in [[0, 360)]. *)
Theorem classic_log_and_win (s : Classic.State) :
  Classic.reachable s ->
  (Classic.knivesLeft s + Z.of_nat (length (Classic.knives s)))%Z = 8%Z /\
  (0 <= Classic.knivesLeft s <= 8)%Z /\
  (Classic.gameState s = Classic.win <->
   length (Classic.knives s) = 8%nat) /\
  (Classic.gameState s = Classic.failed ->
   (length (Classic.knives s) < 8)%nat) /\
  (forall i j a b,
      i <> j -> nth_error (Classic.knives s) i = Some a ->
      nth_error (Classic.knives s) j = Some b ->
      25 <= angularDistance a b) /\
  0 <= Classic.rotation s < 360.
Proof.
  intros R. destruct (classic_reachable_inv s R)
    as (S1 & Ro & K & K0 & Sep & W & Sc).
  unfold Classic.TOTAL_KNIVES in *.
  split; [exact K|]. split; [lia|]. split; [|split; [|split; [exact Sep|exact Ro]]].
  - rewrite W. lia.
  - intros G.
    assert (N : Z.of_nat (length (Classic.knives s)) <> 8%Z).
    { intros E. apply W in E. congruence. }
    lia.
Qed.

(** X16.  In every state of the first version of the screen the
    score is 130 for each stage cleared before, 10 for each knife in
    the log and 50 more once the stage is won; a retry starts again
    from stage 1 with score 0, whatever the stage was. *)
Theorem classic_score_closed_form (s : Classic.State) :
  Classic.reachable s ->
  (1 <= Classic.stage s)%Z /\
  Classic.score s
  = (130 * (Classic.stage s - 1)
     + 10 * Z.of_nat (length (Classic.knives s))
     + match Classic.gameState s with Classic.win => 50 | _ => 0 end)%Z /\
  (Classic.gameState s = Classic.failed ->
   Classic.handle Classic.PressRetry s = Classic.mountState).
Proof.
  intros R. destruct (classic_reachable_inv s R)
    as (S1 & Ro & K & K0 & Sep & W & Sc).
  split; [exact S1|]. split; [exact Sc|].
  intros G. unfold Classic.handle. now rewrite G.
Qed.

Lemma classic_reachable_run (es : list Classic.Event) (s : Classic.State) :
  Classic.reachable s -> Classic.reachable (Classic.run es s).
Proof.
  revert s. induction es as [|e es IH]; intros s R; cbn; trivial.
  apply IH. now apply Classic.reach_step.
Qed.

Lemma classicWon_run :
  classicWon = Classic.run classicEight Classic.mountState.
Proof. vm_compute. reflexivity. Qed.

Lemma reachable_classicWon : Classic.reachable classicWon.
Proof.
  rewrite classicWon_run. apply classic_reachable_run. apply Classic.reach_mount.
Qed.

Lemma classic_log_and_win_witness :
  (Classic.knivesLeft classicWon
   + Z.of_nat (length (Classic.knives classicWon)))%Z = 8%Z /\
  (0 <= Classic.knivesLeft classicWon <= 8)%Z /\
  (Classic.gameState classicWon = Classic.win <->
   length (Classic.knives classicWon) = 8%nat) /\
  (Classic.gameState classicWon = Classic.failed ->
   (length (Classic.knives classicWon) < 8)%nat) /\
  (forall i j a b,
      i <> j -> nth_error (Classic.knives classicWon) i = Some a ->
      nth_error (Classic.knives classicWon) j = Some b ->
      25 <= angularDistance a b) /\
  0 <= Classic.rotation classicWon < 360.
Proof.
  exact (classic_log_and_win classicWon reachable_classicWon).
Defined.

Lemma classic_score_closed_form_witness :
  Classic.score classicWon = 130%Z /\
  (1 <= Classic.stage classicWon)%Z /\
  Classic.score classicWon
  = (130 * (Classic.stage classicWon - 1)
     + 10 * Z.of_nat (length (Classic.knives classicWon))
     + match Classic.gameState classicWon with
       | Classic.win => 50 | _ => 0 end)%Z /\
  (Classic.gameState classicWon = Classic.failed ->
   Classic.handle Classic.PressRetry classicWon = Classic.mountState).
Proof.
  split; [reflexivity|].
  exact (classic_score_closed_form classicWon reachable_classicWon).
Defined.

(** ** Examples of the further properties *)

Lemma bossIntroUp_run : bossIntroUp = run toFirstBoss (bootOf freshInstall).
Proof. vm_compute. reflexivity. Qed.

Lemma reachable_bossIntroUp : reachable bossIntroUp.
Proof.
  rewrite bossIntroUp_run.
  apply reachable_run; [apply reachable_fresh | vm_compute; reflexivity].
Qed.

Lemma knifeInFlight_run :
  knifeInFlight = run (afterFirstKnife ++ [Tap]) (bootOf freshInstall).
Proof. vm_compute. reflexivity. Qed.

Lemma reachable_knifeInFlight : reachable knifeInFlight.
Proof.
  rewrite knifeInFlight_run.
  apply reachable_run; [apply reachable_fresh | vm_compute; reflexivity].
Qed.


Lemma quietReachable_runActions (acts : list Action) (s : State) :
  quietReachable s -> quietReachable (runActions acts s).
Proof.
  revert s. induction acts as [|a acts IH]; intros s R; cbn; trivial.
  apply IH. now apply quiet_act.
Qed.

Lemma quietReachable_fresh : quietReachable (bootOf freshInstall).
Proof. now apply quiet_boot with freshInstall. Qed.

Lemma quietlyFailed_run :
  quietlyFailed = runActions quietFailure (bootOf freshInstall).
Proof. vm_compute. reflexivity. Qed.

Lemma quietReachable_quietlyFailed : quietReachable quietlyFailed.
Proof.
  rewrite quietlyFailed_run.
  apply quietReachable_runActions, quietReachable_fresh.
Qed.

Lemma quietlyWon_run :
  quietlyWon = runActions quietWinActions (bootOf freshInstall).
Proof. vm_compute. reflexivity. Qed.

Lemma quietReachable_quietlyWon : quietReachable quietlyWon.
Proof.
  rewrite quietlyWon_run.
  apply quietReachable_runActions, quietReachable_fresh.
Qed.

Lemma applesApartb_sound (aps : list AppleData) :
  applesApartb aps = true -> applesApart aps.
Proof.
  induction aps as [|a rest IH]; intros H.
  - apply applesApart_nil.
  - cbn [applesApartb] in H. apply andb_true_iff in H. destruct H as [H1 H2].
    rewrite forallb_forall in H1. specialize (IH H2).
    assert (Hd : forall j b, nth_error rest j = Some b ->
                             APPLE_GAP + APPLE_GAP
                             <= angularDistance (apple_angle a) (apple_angle b)).
    { intros j b Hb. apply Qle_bool_iff, H1. eapply nth_error_In; eauto. }
    intros [|i] [|j] x y Hij Hx Hy; cbn [nth_error] in Hx, Hy.
    + congruence.
    + injection Hx as <-. eapply Hd; eauto.
    + injection Hy as <-. rewrite angularDistance_sym. eapply Hd; eauto.
    + apply (IH i j); auto.
Qed.

Lemma applesOnBoardb_sound (aps : list AppleData) :
  applesOnBoardb aps = true ->
  forall a, In a aps -> 0 <= apple_angle a < 360.
Proof.
  unfold applesOnBoardb. rewrite forallb_forall. intros H a Ha.
  specialize (H a Ha). apply andb_true_iff in H. destruct H as [H1 H2].
  split; [now apply Qle_bool_iff | now apply Qltb_lt].
Qed.


Lemma fight_starts_boss_round_witness :
  exists b,
    getBossForStage (stage bossIntroUp) = Some b /\
    let t := handle (PressFight (1 # 2)) bossIntroUp in
    gameState t = playing /\
    knivesLeft t = boss_knives b /\
    knifeBudget t = boss_knives b /\
    stuckKnives t = [] /\
    length (apples t) = Z.to_nat (boss_apples b) /\
    applesHit t = 0%Z /\
    hasUsedContinue t = false /\
    isThrowing t = false /\
    rotation t = 0 /\
    score t = score bossIntroUp /\
    coins t = coins bossIntroUp.
Proof.
  exact (fight_starts_boss_round bossIntroUp (1 # 2)
           reachable_bossIntroUp eq_refl).
Defined.

Lemma nextStage_enters_witness :
  gameState cleanWin = win /\
  let t := handle (PressNext 0) cleanWin in
  stage t = (stage cleanWin + 1)%Z /\
  score t = score cleanWin /\
  coins t = coins cleanWin /\
  (In (stage cleanWin + 1)%Z bossStages ->
     gameState t = boss_intro /\
     (exists b, currentBoss t = Some b /\ boss_stage b = (stage cleanWin + 1)%Z) /\
     isBossLevel t = true /\
     stuckKnives t = stuckKnives cleanWin /\
     knivesLeft t = knivesLeft cleanWin /\
     apples t = apples cleanWin) /\
  (~ In (stage cleanWin + 1)%Z bossStages ->
     gameState t = playing /\
     currentBoss t = None /\
     isBossLevel t = false /\
     knivesLeft t = 10%Z /\
     stuckKnives t = [] /\
     length (apples t) = 10%nat /\
     applesHit t = 0%Z /\
     hasUsedContinue t = false).
Proof.
  split; [reflexivity|].
  exact (nextStage_enters cleanWin 0 eq_refl).
Defined.

Lemma angles_stay_on_the_board_witness :
  length (stuckKnives wonWithEleven) = 11%nat /\
  0 <= rotation wonWithEleven < 360 /\
  (forall k, In k (stuckKnives wonWithEleven) -> 0 <= k < 360) /\
  (forall a, In a (apples wonWithEleven) -> 0 <= apple_angle a < 360) /\
  (forall h ks aps bl b,
      In (Landing h ks aps bl b) (pending wonWithEleven) -> 0 <= h < 360).
Proof.
  split; [reflexivity|].
  exact (angles_stay_on_the_board wonWithEleven reachable_wonWithEleven).
Defined.

Lemma throw_reaches_one_apple_at_most_witness :
  length (hitApples 180 (generateApples 0 10)) = 1%nat /\
  (length (hitApples 180 (generateApples 0 10)) <= 1)%nat.
Proof.
  split; [vm_compute; reflexivity|].
  apply (throw_reaches_one_apple_at_most 180 (generateApples 0 10)).
  - apply applesApartb_sound. vm_compute. reflexivity.
  - apply applesOnBoardb_sound. vm_compute. reflexivity.
  - split; [discriminate | reflexivity].
Defined.

Lemma landing_outcomes_witness :
  exists h ks aps bl b,
    nth_error (pending knifeInFlight) 0 = Some (Landing h ks aps bl b) /\
    let t := fire 0 knifeInFlight in
    (gameState t = failed /\ stuckKnives t = stuckKnives knifeInFlight /\
     score t = score knifeInFlight /\ coins t = coins knifeInFlight /\
     knivesLeft t = knivesLeft knifeInFlight /\
     applesHit t = applesHit knifeInFlight) \/
    (stuckKnives t = ks ++ [h] /\
     score t = (score knifeInFlight + 10)%Z /\ coins t = coins knifeInFlight /\
     knivesLeft t = (knivesLeft knifeInFlight - 1)%Z /\
     applesHit t = applesHit knifeInFlight) \/
    (stuckKnives t = ks ++ [h] /\
     score t = (score knifeInFlight + 15)%Z /\
     coins t = (coins knifeInFlight + 5)%Z /\
     knivesLeft t = (knivesLeft knifeInFlight - 1)%Z /\
     applesHit t = (applesHit knifeInFlight + 1)%Z).
Proof.
  do 5 eexists. split; [reflexivity|].
  exact (landing_outcomes knifeInFlight 0 _ _ _ _ _
           reachable_knifeInFlight eq_refl).
Defined.

Lemma score_only_reset_by_restart_witness :
  score failedOnce = 15%Z /\
  (0 <= score failedOnce)%Z /\
  ((score failedOnce <= score (step (PressRestart 0) failedOnce))%Z \/
   (exists rnd, PressRestart 0 = PressRestart rnd /\
                gameState failedOnce = failed /\
                score (step (PressRestart 0) failedOnce) = 0%Z /\
                stage (step (PressRestart 0) failedOnce) = 1%Z /\
                gameState (step (PressRestart 0) failedOnce) = playing /\
                isBossLevel (step (PressRestart 0) failedOnce) = false /\
                coins (step (PressRestart 0) failedOnce) = coins failedOnce)).
Proof.
  split; [reflexivity|].
  exact (score_only_reset_by_restart failedOnce (PressRestart 0)
           reachable_failedOnce).
Defined.

Lemma round_accounts_witness :
  knivesLeft quietlyFailed = 9%Z /\
  applesHit quietlyFailed
  = (Z.of_nat (length (apples quietlyFailed))
     - Z.of_nat (visibleCount (apples quietlyFailed)))%Z /\
  (0 <= applesHit quietlyFailed <= Z.of_nat (length (apples quietlyFailed)))%Z /\
  (gameState quietlyFailed = playing \/ gameState quietlyFailed = failed
   \/ gameState quietlyFailed = win ->
   (0 <= knivesLeft quietlyFailed <= stageBudget (stage quietlyFailed))%Z /\
   (hasUsedContinue quietlyFailed = false ->
    (knivesLeft quietlyFailed
     + Z.of_nat (length (stuckKnives quietlyFailed)))%Z
    = stageBudget (stage quietlyFailed))).
Proof.
  split; [reflexivity|].
  exact (round_accounts quietlyFailed quietReachable_quietlyFailed).
Defined.

Lemma quiet_win_has_budget_witness :
  stage quietlyWon = 1%Z /\
  Z.of_nat (length (stuckKnives quietlyWon)) = stageBudget (stage quietlyWon) /\
  lastKnifeClean (stuckKnives quietlyWon).
Proof.
  split; [reflexivity|].
  exact (quiet_win_has_budget quietlyWon quietReachable_quietlyWon eq_refl).
Defined.


Lemma daily_reward_on_launch_witness :
  exists s reward,
    loadSavedData seventhDay mountState = Some s /\
    showDailyReward s = true /\
    nth_error DAILY_REWARDS (Z.to_nat ((savedRewardDay seventhDay - 1) mod 7))
      = Some reward /\
    let t := handle PressClaim s in
    coins t = (savedCoins seventhDay + reward)%Z /\
    rewardDay t = (savedRewardDay seventhDay mod 7 + 1)%Z /\
    (1 <= rewardDay t <= 7)%Z /\
    showDailyReward t = false /\
    handle PressClaim t = t.
Proof.
  apply (proj1 (daily_reward_on_launch seventhDay)); [reflexivity|].
  cbn. lia.
Defined.
